(** * SHINE: image-quality metrics and noise-correlation estimation

    A shallow embedding of the two notebooks of the repository:
    - [Performance_Evaluation.ipynb]: [calculate_psnr], [ssim],
      [calculate_ssim], [calculate_snr] and the SNR evaluation cell;
    - the noise-statistics notebook: [compute_correlation_for_distance],
      [relative_distance_correlation], [spatial_correlation_heatmap].

    Numbers.  The notebooks compute with IEEE doubles.  Here a float is a
    value of [npfloat]: a real number, one of the two infinities, or NaN.
    Finite values are combined with exact real arithmetic (no rounding, no
    overflow); the special values follow the IEEE rules that numpy applies
    (division by zero gives an infinity or NaN, the logarithm of a negative
    number is NaN, ...).  Every statement below is therefore a statement
    about the formulas of the notebooks in real arithmetic. *)

From Stdlib Require Import Reals Lra Lia ZArith List String Ascii.
From stdpp Require Import base list strings pretty.
Import ListNotations.

#[local] Open Scope R_scope.

(** ** Floats with special values *)

Inductive npfloat : Type :=
| Num (r : R)
| PInf
| NInf
| NaN.

Definition fopp (x : npfloat) : npfloat :=
  match x with
  | Num a => Num (- a)
  | PInf => NInf
  | NInf => PInf
  | NaN => NaN
  end.

Definition fadd (x y : npfloat) : npfloat :=
  match x, y with
  | NaN, _ | _, NaN => NaN
  | Num a, Num b => Num (a + b)
  | PInf, NInf | NInf, PInf => NaN
  | PInf, _ | _, PInf => PInf
  | NInf, _ | _, NInf => NInf
  end.

Definition fsub (x y : npfloat) : npfloat := fadd x (fopp y).

(** The sign of a real as a float uses it: [0] counts as [+0.0]. *)
Definition signed_inf (a : R) : npfloat :=
  if Rlt_dec a 0 then NInf else PInf.

Definition fmul (x y : npfloat) : npfloat :=
  match x, y with
  | NaN, _ | _, NaN => NaN
  | Num a, Num b => Num (a * b)
  | Num a, PInf | PInf, Num a =>
      if Req_EM_T a 0 then NaN else signed_inf a
  | Num a, NInf | NInf, Num a =>
      if Req_EM_T a 0 then NaN else signed_inf (- a)
  | PInf, PInf | NInf, NInf => PInf
  | PInf, NInf | NInf, PInf => NInf
  end.

(** numpy's [/] on float64: a zero divisor gives a warning and an infinity
    (or NaN for [0/0]), never an exception. *)
Definition fdiv (x y : npfloat) : npfloat :=
  match x, y with
  | NaN, _ | _, NaN => NaN
  | Num a, Num b =>
      if Req_EM_T b 0
      then (if Req_EM_T a 0 then NaN else signed_inf a)
      else Num (a / b)
  | Num _, PInf | Num _, NInf => Num 0
  | PInf, Num b => signed_inf b
  | NInf, Num b => signed_inf (- b)
  | _, _ => NaN
  end.

(** [np.sqrt] *)
Definition fsqrt (x : npfloat) : npfloat :=
  match x with
  | Num a => if Rlt_dec a 0 then NaN else Num (sqrt a)
  | PInf => PInf
  | _ => NaN
  end.

Definition log10 (a : R) : R := ln a / ln 10.

(** [np.log10] *)
Definition flog10 (x : npfloat) : npfloat :=
  match x with
  | Num a =>
      if Rlt_dec a 0 then NaN
      else if Req_EM_T a 0 then NInf
      else Num (log10 a)
  | PInf => PInf
  | _ => NaN
  end.

(** [x < 0] and [x == 0] on floats: false on NaN. *)
Definition flt0 (x : npfloat) : bool :=
  match x with
  | Num a => if Rlt_dec a 0 then true else false
  | NInf => true
  | _ => false
  end.

Definition feq0 (x : npfloat) : bool :=
  match x with
  | Num a => if Req_EM_T a 0 then true else false
  | _ => false
  end.

(** [np.clip(x, -1, 1)] *)
Definition fclip1 (x : npfloat) : npfloat :=
  match x with
  | Num a => if Rlt_dec a (-1) then Num (-1)
             else if Rlt_dec 1 a then Num 1 else Num a
  | PInf => Num 1
  | NInf => Num (-1)
  | NaN => NaN
  end.

(** ** What a Python call does *)

Inductive outcome (A : Type) : Type :=
| Returned (a : A)          (* [return a] *)
| ReturnedNone              (* the body ends without a [return] *)
| Raised (exn : string)     (* an exception leaves the function *)
| OutsideModel.             (* numpy would broadcast unequal shapes, or
                               OpenCV is given something that is not an
                               image: not modelled *)
Arguments Returned {A} a.
Arguments ReturnedNone {A}.
Arguments Raised {A} exn.
Arguments OutsideModel {A}.

Definition outcome_bind {A B} (k : A -> outcome B) (m : outcome A)
    : outcome B :=
  match m with
  | Returned a => k a
  | ReturnedNone => ReturnedNone
  | Raised e => Raised e
  | OutsideModel => OutsideModel
  end.

(** Sequencing is written [x ← m; k], with stdpp's notation. *)
#[export] Instance outcome_mbind : MBind outcome := @outcome_bind.
#[export] Instance outcome_mret : MRet outcome := @Returned.

(** Python's own [/], [math.sqrt] and [math.log10] raise where numpy warns. *)
Definition py_div (x y : npfloat) : outcome npfloat :=
  if feq0 y then Raised "ZeroDivisionError" else Returned (fdiv x y).

Definition math_sqrt (x : npfloat) : outcome npfloat :=
  match x with
  | Num a => if Rlt_dec a 0 then Raised "ValueError" else Returned (Num (sqrt a))
  | PInf => Returned PInf
  | NInf => Raised "ValueError"
  | NaN => Returned NaN
  end.

Definition math_log10 (x : npfloat) : outcome npfloat :=
  match x with
  | Num a => if Rle_dec a 0 then Raised "ValueError" else Returned (Num (log10 a))
  | PInf => Returned PInf
  | NInf => Raised "ValueError"
  | NaN => Returned NaN
  end.

(** ** Arrays *)

(** A numpy array: its shape and its elements in row-major order. *)
Record ndarray : Type := mk_ndarray {
  shape : list nat;
  data : list npfloat
}.

Definition ndim (a : ndarray) : nat := length (shape a).

Definition size_of (sh : list nat) : nat := fold_right Nat.mul 1%nat sh.

(** An array of finite reals, as an image read from a file is. *)
Definition of_reals (sh : list nat) (xs : list R) : ndarray :=
  mk_ndarray sh (map Num xs).

Fixpoint shape_eqb (s t : list nat) : bool :=
  match s, t with
  | [], [] => true
  | m :: s', n :: t' => Nat.eqb m n && shape_eqb s' t'
  | _, _ => false
  end.

Fixpoint zip_with_f (f : npfloat -> npfloat -> npfloat)
    (xs ys : list npfloat) : list npfloat :=
  match xs, ys with
  | x :: xs', y :: ys' => f x y :: zip_with_f f xs' ys'
  | _, _ => []
  end.

(** An elementwise operator on two arrays of one shape. *)
Definition elementwise (f : npfloat -> npfloat -> npfloat)
    (a b : ndarray) : outcome ndarray :=
  if shape_eqb (shape a) (shape b)
  then Returned (mk_ndarray (shape a) (zip_with_f f (data a) (data b)))
  else OutsideModel.

Definition amap (f : npfloat -> npfloat) (a : ndarray) : ndarray :=
  mk_ndarray (shape a) (map f (data a)).

Definition fsum (xs : list npfloat) : npfloat :=
  fold_right fadd (Num 0) xs.

(** [np.mean] of a list of floats: NaN (and a warning) on no elements. *)
Definition fmean (xs : list npfloat) : npfloat :=
  fdiv (fsum xs) (Num (INR (length xs))).

Definition np_mean (a : ndarray) : npfloat := fmean (data a).

Definition fsquare (x : npfloat) : npfloat := fmul x x.

(** ** [calculate_psnr] *)

Definition calculate_psnr (img1 img2 : ndarray) : outcome npfloat :=
  d ← elementwise fsub img1 img2;
  let mse := np_mean (amap fsquare d) in
  if feq0 mse then Returned PInf
  else
    s ← math_sqrt mse;
    q ← py_div (Num 255) s;
    l ← math_log10 q;
    Returned (fmul (Num 20) l).

(** ** [ssim] *)

(** [cv.getGaussianKernel(ksize, sigma)] for [sigma > 0] and [ksize > 7],
    where OpenCV computes the coefficients (smaller kernels come from a
    fixed table): [exp(-(i - (ksize-1)/2)^2 / (2 sigma^2))], scaled so that
    the coefficients sum to one. *)
Definition gaussian_raw (ksize : nat) (sigma : R) (i : nat) : R :=
  let x := INR i - (INR ksize - 1) * / 2 in
  exp (- / 2 / (sigma * sigma) * x * x).

Definition Rsum (xs : list R) : R := fold_right Rplus 0 xs.

Definition getGaussianKernel (ksize : nat) (sigma : R) : list R :=
  let raw := map (gaussian_raw ksize sigma) (seq 0 ksize) in
  map (fun t => t * / Rsum raw) raw.

(** [np.outer(u, v)] *)
Definition outer (u v : list R) : list (list R) :=
  map (fun a => map (fun b => a * b) v) u.

(** OpenCV's [borderInterpolate] for [BORDER_REFLECT_101], the default
    border of [filter2D]: [gfedcb|abcdefgh|gfedcba]. *)
Definition border_reflect_101 (p len : Z) : Z :=
  if ((0 <=? p) && (p <? len))%Z then p
  else if (len =? 1)%Z then 0%Z
  else
    let period := (2 * (len - 1))%Z in
    let q := (p mod period)%Z in
    if (q <? len)%Z then q else (period - q)%Z.

(** How OpenCV reads an array as an image: rows, columns, channels. *)
Definition image_view (a : ndarray) : option (nat * nat * nat) :=
  match shape a with
  | [H; W] => if (H =? 0)%nat || (W =? 0)%nat then None else Some (H, W, 1%nat)
  | [H; W; C] =>
      if (H =? 0)%nat || (W =? 0)%nat || (C =? 0)%nat then None
      else Some (H, W, C)
  | _ => None
  end.

(** Element [(i, j, c)] of row-major data of an image [_ x W x C]. *)
Definition pixel (W C : nat) (d : list npfloat) (i j c : nat) : npfloat :=
  nth ((i * W + j) * C + c) d NaN.

(** All the indices [(i, j, c)] with [i] in [rows], [j] in [cols], [c < C],
    in row-major order. *)
Definition indices (rows cols : list nat) (C : nat) : list (nat * nat * nat) :=
  flat_map (fun i => flat_map (fun j => map (fun c => (i, j, c)) (seq 0 C)) cols) rows.

(** The taps of a kernel: each weight with its offset from the anchor, the
    kernel centre. *)
Definition taps (window : list (list R)) : list (R * Z * Z) :=
  let ay := Z.of_nat (length window / 2) in
  let ax := Z.of_nat (length (hd [] window) / 2) in
  concat (imap (fun a row =>
            imap (fun b w => (w, (Z.of_nat a - ay)%Z, (Z.of_nat b - ax)%Z)) row)
          window).

Definition filter_pixel (H W C : nat) (d : list npfloat)
    (tp : list (R * Z * Z)) (idx : nat * nat * nat) : npfloat :=
  let '(i, j, c) := idx in
  fsum (map (fun t : R * Z * Z =>
               let '(w, di, dj) := t in
               let i' := Z.to_nat (border_reflect_101 (Z.of_nat i + di) (Z.of_nat H)) in
               let j' := Z.to_nat (border_reflect_101 (Z.of_nat j + dj) (Z.of_nat W)) in
               fmul (Num w) (pixel W C d i' j' c))
            tp).

(** [cv.filter2D(src, -1, window)]: the correlation of every channel with
    the kernel; the result has the shape of [src]. *)
Definition filter2D (src : ndarray) (window : list (list R)) : outcome ndarray :=
  match image_view src with
  | None => OutsideModel
  | Some (H, W, C) =>
      Returned (mk_ndarray (shape src)
                  (map (filter_pixel H W C (data src) (taps window))
                       (indices (seq 0 H) (seq 0 W) C)))
  end.

(** The indices a Python slice [5:-5] selects from [n] elements. *)
Definition slice_5_m5 (n : nat) : list nat := seq 5 (n - 10).

(** [a[5:-5, 5:-5]]: two slices need two axes. *)
Definition crop (a : ndarray) : outcome ndarray :=
  match shape a with
  | H :: W :: rest =>
      let C := size_of rest in
      Returned
        (mk_ndarray ((H - 10) :: (W - 10) :: rest)%nat
           (map (fun idx : nat * nat * nat =>
                   let '(i, j, c) := idx in pixel W C (data a) i j c)
                (indices (slice_5_m5 H) (slice_5_m5 W) C)))
  | _ => Raised "IndexError"
  end.

Definition C1 : R := (0.01 * 255) * (0.01 * 255).
Definition C2 : R := (0.03 * 255) * (0.03 * 255).

Definition ssim (img1 img2 : ndarray) : outcome npfloat :=
  let kernel := getGaussianKernel 11 1.5 in
  let window := outer kernel kernel in
  f1 ← filter2D img1 window;
  mu1 ← crop f1;
  f2 ← filter2D img2 window;
  mu2 ← crop f2;
  let mu1_sq := amap fsquare mu1 in
  let mu2_sq := amap fsquare mu2 in
  mu1_mu2 ← elementwise fmul mu1 mu2;
  f11 ← filter2D (amap fsquare img1) window;
  c11 ← crop f11;
  sigma1_sq ← elementwise fsub c11 mu1_sq;
  f22 ← filter2D (amap fsquare img2) window;
  c22 ← crop f22;
  sigma2_sq ← elementwise fsub c22 mu2_sq;
  p12 ← elementwise fmul img1 img2;
  f12 ← filter2D p12 window;
  c12 ← crop f12;
  sigma12 ← elementwise fsub c12 mu1_mu2;
  num ← elementwise fmul
          (amap (fun v => fadd (fmul (Num 2) v) (Num C1)) mu1_mu2)
          (amap (fun v => fadd (fmul (Num 2) v) (Num C2)) sigma12);
  m12 ← elementwise fadd mu1_sq mu2_sq;
  s12 ← elementwise fadd sigma1_sq sigma2_sq;
  den ← elementwise fmul
          (amap (fun v => fadd v (Num C1)) m12)
          (amap (fun v => fadd v (Num C2)) s12);
  ssim_map ← elementwise fdiv num den;
  Returned (np_mean ssim_map).

(** ** [calculate_ssim] *)

(** [np.squeeze]: drop every axis of length one. *)
Definition squeeze (a : ndarray) : ndarray :=
  mk_ndarray (filter (fun n => negb (n =? 1)%nat) (shape a)) (data a).

(** [for i in range(n): acc.append(body)] *)
Fixpoint append_times {A} (n : nat) (body : outcome A) (acc : list A)
    : outcome (list A) :=
  match n with
  | O => Returned acc
  | S n' => v ← body; append_times n' body (acc ++ [v])
  end.

Definition calculate_ssim (img1 img2 : ndarray) : outcome npfloat :=
  if negb (shape_eqb (shape img1) (shape img2))
  then Raised "ValueError: Input images must have the same dimensions."
  else if (ndim img1 =? 2)%nat then ssim img1 img2
  else if (ndim img1 =? 3)%nat then
    if (nth 2 (shape img1) 0 =? 3)%nat then
      ssims ← append_times 3 (ssim img1 img2) [];
      Returned (fmean ssims)
    else if (nth 2 (shape img1) 0 =? 1)%nat then
      ssim (squeeze img1) (squeeze img2)
    else ReturnedNone
  else Raised "ValueError: Wrong input image dimensions.".

(** ** [calculate_snr] *)

(** What the notebook prints: [print(img1_1, img2_1, r)] in
    [calculate_snr], and the closing
    [print(label + str(mean) + ' +- ' + str(std))] of the evaluation cell. *)
Inductive diagnostic : Type :=
| Printed (first second : string) (r : npfloat)
| Summary (label : string) (mean std : npfloat).

(** The image files: [Image.open] on a name that is on the disk. *)
Definition disk : Type := string -> option ndarray.

Definition correlation_r (img1 img2 : ndarray) : outcome npfloat :=
  let mean1 := np_mean img1 in
  let mean2 := np_mean img2 in
  let c1 := amap (fun v => fsub v mean1) img1 in
  let c2 := amap (fun v => fsub v mean2) img2 in
  p ← elementwise fmul c1 c2;
  Returned (fdiv (np_mean p)
              (fsqrt (fmul (np_mean (amap fsquare c1))
                           (np_mean (amap fsquare c2))))).

(** The returned expression, [10 * np.log10(r / (1 - r))]. *)
Definition snr_db (r : npfloat) : npfloat :=
  fmul (Num 10) (flog10 (fdiv r (fsub (Num 1) r))).

(** The function returns what it printed and its result. *)
Definition calculate_snr (fs : disk) (img1_1 img2_1 : string)
    : list diagnostic * outcome npfloat :=
  match fs img1_1 with
  | None => ([], Raised "FileNotFoundError")
  | Some img1 =>
      match fs img2_1 with
      | None => ([], Raised "FileNotFoundError")
      | Some img2 =>
          match correlation_r img1 img2 with
          | Returned r =>
              ((if flt0 r then [Printed img1_1 img2_1 r] else []),
               Returned (snr_db r))
          | ReturnedNone => ([], ReturnedNone)
          | Raised e => ([], Raised e)
          | OutsideModel => ([], OutsideModel)
          end
      end
  end.

(** ** The SNR evaluation cell *)

(** [l[i]] and [l[i] = v] for an index that is not negative. *)
Definition getitem {A} (l : list A) (i : nat) : outcome A :=
  match l !! i with
  | Some x => Returned x
  | None => Raised "IndexError"
  end.

Definition setitem {A} (l : list A) (i : nat) (v : A) : outcome (list A) :=
  if (i <? length l)%nat then Returned (<[i:=v]> l) else Raised "IndexError".

(** [np.std]: the square root of the mean squared deviation from the mean. *)
Definition np_std (xs : list npfloat) : npfloat :=
  let m := fmean xs in
  fsqrt (fmean (map (fun v => fsquare (fsub v m)) xs)).

(** [for i in ixs: st = body(st, i)] *)
Fixpoint for_each {S} (body : S -> nat -> outcome S) (ixs : list nat) (st : S)
    : outcome S :=
  match ixs with
  | [] => Returned st
  | i :: ixs' => st' ← body st i; for_each body ixs' st'
  end.

Record eval_state : Type := mk_eval_state {
  snr_noisy : list npfloat;
  snr_denoised : list npfloat;
  stdout : list diagnostic
}.

Definition snr_loop_body (fs : disk) (noisy_list denoised_list : list string)
    (st : eval_state) (i : nat) : outcome eval_state :=
  a ← getitem noisy_list i;
  b ← getitem noisy_list (i + 1);
  let '(o1, r1) := calculate_snr fs a b in
  v1 ← r1;
  sn ← setitem (snr_noisy st) (i + 2) v1;
  c ← getitem denoised_list i;
  d ← getitem denoised_list (i + 1);
  let '(o2, r2) := calculate_snr fs c d in
  v2 ← r2;
  sd ← setitem (snr_denoised st) (i + 2) v2;
  Returned (mk_eval_state sn sd (stdout st ++ o1 ++ o2)).

(** Rounding a real to the nearest integer, ties to the even one. *)
Definition round_half_even (x : R) : Z :=
  let f := Int_part x in
  let r := frac_part x in
  if Rlt_dec r (/ 2) then f
  else if Rlt_dec (/ 2) r then (f + 1)%Z
  else if Z.even f then f else (f + 1)%Z.

Definition digit_char (d : Z) : ascii := ascii_of_nat (48 + Z.to_nat d).

Definition frac6 (n : Z) : string :=
  String (digit_char (n / 100000 mod 10))
 (String (digit_char (n / 10000 mod 10))
 (String (digit_char (n / 1000 mod 10))
 (String (digit_char (n / 100 mod 10))
 (String (digit_char (n / 10 mod 10))
 (String (digit_char (n mod 10)) EmptyString))))).

(** ["%.6f" % x] *)
Definition format_6f (x : npfloat) : string :=
  match x with
  | Num r =>
      let n := round_half_even (Rabs r * 1000000) in
      (if Rlt_dec r 0 then "-" else "")
        +:+ pretty (n / 1000000)%Z +:+ "." +:+ frac6 (n mod 1000000)%Z
  | PInf => "inf"
  | NInf => "-inf"
  | NaN => "nan"
  end.

Definition newline : string := String (ascii_of_nat 10) EmptyString.

(** The text [np.savetxt(path, arr, fmt="%.6f")] writes for a 1-D array. *)
Definition savetxt_lines (arr : list npfloat) : list string :=
  map format_6f arr.

Definition savetxt (arr : list npfloat) : string :=
  String.concat "" (map (fun l => l +:+ newline) (savetxt_lines arr)).

(** [os.path.join(dir, name)] for a relative [name]. *)
Definition path_join (dir name : string) : string :=
  if String.eqb dir "" then name
  else if String.eqb (String.substring (String.length dir - 1) 1 dir) "/"
       then dir +:+ name
       else dir +:+ "/" +:+ name.

Record eval_result : Type := mk_eval_result {
  final_noisy : list npfloat;
  final_denoised : list npfloat;
  files_written : list (string * string);
  printed : list diagnostic
}.

Definition snr_evaluation (fs : disk) (snr_dir : string)
    (noisy_list denoised_list : list string) : outcome eval_result :=
  let num_img := length noisy_list in
  let st0 := mk_eval_state (replicate (num_img + 1) (Num 0))
                           (replicate (num_img + 1) (Num 0)) [] in
  st ← for_each (snr_loop_body fs noisy_list denoised_list)
                 (seq 0 (num_img - 1)) st0;
  sn ← setitem (snr_noisy st) 0 (fmean (drop 2 (snr_noisy st)));
  sn ← setitem sn 1 (np_std (drop 2 sn));
  sd ← setitem (snr_denoised st) 0 (fmean (drop 2 (snr_denoised st)));
  sd ← setitem sd 1 (np_std (drop 2 sd));
  n0 ← getitem sn 0; n1 ← getitem sn 1;
  d0 ← getitem sd 0; d1 ← getitem sd 1;
  Returned (mk_eval_result sn sd
    [(path_join snr_dir "snr_noisy.txt", savetxt sn);
     (path_join snr_dir "snr_denoised.txt", savetxt sd)]
    (stdout st ++ [Summary "mean SNR of noisy images = " n0 n1;
                   Summary "mean SNR of denoised images = " d0 d1])).

(** ** The evaluation of the simulated dataset *)

(** [np.minimum] and [np.maximum] on two floats: NaN wins. *)
Definition fmin2 (x y : npfloat) : npfloat :=
  match x, y with
  | NaN, _ | _, NaN => NaN
  | NInf, _ | _, NInf => NInf
  | PInf, z | z, PInf => z
  | Num a, Num b => Num (Rmin a b)
  end.

Definition fmax2 (x y : npfloat) : npfloat :=
  match x, y with
  | NaN, _ | _, NaN => NaN
  | PInf, _ | _, PInf => PInf
  | NInf, z | z, NInf => z
  | Num a, Num b => Num (Rmax a b)
  end.

(** [img.min()] and [img.max()]: an array without elements has neither. *)
Definition np_min (a : ndarray) : outcome npfloat :=
  match data a with
  | [] => Raised "ValueError"
  | x :: xs => Returned (fold_left fmin2 xs x)
  end.

Definition np_max (a : ndarray) : outcome npfloat :=
  match data a with
  | [] => Raised "ValueError"
  | x :: xs => Returned (fold_left fmax2 xs x)
  end.

(** [np.round]: to the nearest integer, ties to the even one. *)
Definition np_round (x : npfloat) : npfloat :=
  match x with
  | Num r => Num (IZR (round_half_even r))
  | other => other
  end.

(** The two statements that bring an image to the range [0, 255]:
    [img = (img - img.min()) * 255.0 / (img.max() - img.min())] and
    [img = np.round(img)]. *)
Definition normalize_255 (img : ndarray) : outcome ndarray :=
  mn ← np_min img;
  mx ← np_max img;
  let scaled :=
    amap (fun v => fdiv (fmul (fsub v mn) (Num 255)) (fsub mx mn)) img in
  Returned (amap np_round scaled).

(** ** The noise-statistics notebook *)

(** A 2-D image is the list of its rows, at least one: [cv.imread] gives no
    array without rows. *)
Definition image : Type := list (list npfloat).


(** [np.roll] along one axis: element [i] moves to [(i + s) mod n]. *)
Definition roll1 {A} (s : Z) (l : list A) : list A :=
  let n := Z.of_nat (length l) in
  let k := Z.to_nat ((- s) mod n) in
  drop k l ++ take k l.

(** [np.roll(img, shift=(dx, dy), axis=(0, 1))] *)
Definition roll (dx dy : Z) (img : image) : image :=
  roll1 dx (map (roll1 dy) img).

(** [img[:, col]], [img.shape[1]] and [img.flatten()] *)
Definition column (img : image) (col : nat) : list npfloat :=
  map (fun row => nth col row NaN) img.

Definition width (img : image) : nat := length (hd [] img).

Definition flatten (img : image) : list npfloat := concat img.


(** [np.corrcoef(x, y)[0, 1]]: numpy takes the covariance matrix with
    [N - 1] in the denominator, divides by the two standard deviations and
    clips the quotient to [-1, 1]. *)
Definition corrcoef01 (x y : list npfloat) : npfloat :=
  let xc := map (fun v => fsub v (fmean x)) x in
  let yc := map (fun v => fsub v (fmean y)) y in
  let fact := INR (length x) - 1 in
  let fact := if Rle_dec fact 0 then 0 else fact in
  let scale := fdiv (Num 1) (Num fact) in
  let cxy := fmul (fsum (zip_with_f fmul xc yc)) scale in
  let cxx := fmul (fsum (zip_with_f fmul xc xc)) scale in
  let cyy := fmul (fsum (zip_with_f fmul yc yc)) scale in
  fclip1 (fdiv (fdiv cxy (fsqrt cxx)) (fsqrt cyy)).

(** [for i in range(n)] with an accumulator that cannot fail. *)
Definition for_range {S} (n : nat) (body : S -> nat -> S) (st : S) : S :=
  fold_left body (seq 0 n) st.

Definition compute_correlation_for_distance (noise_img : image) (distance : nat)
    : npfloat :=
  let correlations :=
    for_range (distance + 1) (fun acc dx =>
      for_range (distance + 1) (fun acc dy =>
        if (dx =? 0)%nat && (dy =? 0)%nat then acc ++ [Num 1]
        else
          let shifted := roll (Z.of_nat dx) (Z.of_nat dy) noise_img in
          let corr_values :=
            map (fun col => corrcoef01 (column noise_img col) (column shifted col))
                (seq 0 (width noise_img)) in
          acc ++ [fmean corr_values]) acc) [] in
  fmean correlations.

Definition relative_distance_correlation (image_tensor : image)
    (max_distance : nat) : list npfloat :=
  fold_left (fun correlations distance =>
               let correlation :=
                 compute_correlation_for_distance image_tensor distance in
               correlations ++ [correlation])
            (seq 1 max_distance) [].

(** The inner function [corr] of [spatial_correlation_heatmap]. *)
Definition corr (x y : list npfloat) : npfloat :=
  let x := map (fun v => fsub v (fmean x)) x in
  let y := map (fun v => fsub v (fmean y)) y in
  fdiv (fsum (zip_with_f fmul x y))
       (fmul (fsqrt (fsum (map fsquare x))) (fsqrt (fsum (map fsquare y)))).

(** [h[i, j] = v] on a 2-D array, for indices that are not negative. *)
Definition setitem2 (h : list (list npfloat)) (i j : nat) (v : npfloat)
    : outcome (list (list npfloat)) :=
  row ← getitem h i;
  row' ← setitem row j v;
  setitem h i row'.

(** [range(-n, n + 1)] *)
Definition range_sym (n : nat) : list Z :=
  map (fun k => (Z.of_nat k - Z.of_nat n)%Z) (seq 0 (2 * n + 1)).

Fixpoint for_each_Z {S} (body : S -> Z -> outcome S) (ixs : list Z) (st : S)
    : outcome S :=
  match ixs with
  | [] => Returned st
  | i :: ixs' => st' ← body st i; for_each_Z body ixs' st'
  end.

Definition spatial_correlation_heatmap (image_tensor : image)
    (max_distance : nat) : outcome (list (list npfloat)) :=
  let size := (2 * max_distance + 1)%nat in
  let heatmap := replicate size (replicate size (Num 0)) in
  let md := Z.of_nat max_distance in
  for_each_Z (fun heatmap dx =>
    for_each_Z (fun heatmap dy =>
      if ((dx =? 0) && (dy =? 0))%Z then
        setitem2 heatmap (Z.to_nat (dx + md)) (Z.to_nat (dy + md)) (Num 1)
      else
        let shifted := roll dx dy image_tensor in
        let correlation := corr (flatten image_tensor) (flatten shifted) in
        setitem2 heatmap (Z.to_nat (dx + md)) (Z.to_nat (dy + md)) correlation)
      (range_sym max_distance) heatmap)
    (range_sym max_distance) heatmap.

(** ** The quantities the specification names *)

Definition sq_diffs (xs ys : list R) : list R :=
  zip_with (fun x y => (x - y) * (x - y)) xs ys.

(** The mean squared pixel difference, as the specification names it. *)
Definition MSE (xs ys : list R) : R :=
  Rsum (sq_diffs xs ys) / INR (length (sq_diffs xs ys)).

Definition Rmean (xs : list R) : R := Rsum xs / INR (length xs).

Definition centered (xs : list R) : list R := map (fun x => x - Rmean xs) xs.

Definition dot (xs ys : list R) : R := Rsum (zip_with Rmult xs ys).

(** The Pearson correlation of two frames: the inner product of the
    mean-centred intensities over the product of their norms.  It is NaN
    when a frame is constant, as [0/0] is. *)
Definition pearson_r (xs ys : list R) : npfloat :=
  fdiv (Num (dot (centered xs) (centered ys)))
       (Num (sqrt (dot (centered xs) (centered xs)
                   * dot (centered ys) (centered ys)))).

(** [filter_pixel] and [crop] on real data, for images without special
    values. *)
Definition flat_index (W C : nat) (idx : nat * nat * nat) : nat :=
  let '(i, j, c) := idx in ((i * W + j) * C + c)%nat.

Definition tap_index (H W C : nat) (idx : nat * nat * nat) (t : R * Z * Z)
    : nat * nat * nat :=
  let '(i, j, c) := idx in
  let '(w, di, dj) := t in
  (Z.to_nat (border_reflect_101 (Z.of_nat i + di) (Z.of_nat H)),
   Z.to_nat (border_reflect_101 (Z.of_nat j + dj) (Z.of_nat W)), c).

Definition filter_real (H W C : nat) (xs : list R) (tp : list (R * Z * Z))
    (idx : nat * nat * nat) : R :=
  Rsum (map (fun t => t.1.1 * nth (flat_index W C (tap_index H W C idx t)) xs 0) tp).

Definition crop_real (H W C : nat) (xs : list R) : list R :=
  map (fun idx => nth (flat_index W C idx) xs 0)
      (indices (slice_5_m5 H) (slice_5_m5 W) C).

(** [h[i, j]] read from a 2-D array, for indices that are not negative. *)
Definition at2 (h : list (list npfloat)) (i j : nat) : option npfloat :=
  match h !! i with
  | Some row => row !! j
  | None => None
  end.

(** What the heat map holds for the offset [(dx, dy)]. *)
Definition heatmap_entry (img : image) (dx dy : Z) : npfloat :=
  if ((dx =? 0) && (dy =? 0))%Z then Num 1
  else corr (flatten img) (flatten (roll dx dy img)).




(** The offsets [(dx, dy)] with [0 <= dx <= d] and [0 <= dy <= d]. *)
Definition offsets (d : nat) : list (nat * nat) :=
  list_prod (seq 0 (d + 1)) (seq 0 (d + 1)).

(** The average column-wise correlation of the image with its cyclic shift
    by [(dx, dy)]; the offset [(0, 0)] counts as 1.0. *)
Definition offset_correlation (img : image) (off : nat * nat) : npfloat :=
  let '(dx, dy) := off in
  if (dx =? 0)%nat && (dy =? 0)%nat then Num 1
  else
    fmean (map (fun col =>
                  corrcoef01 (column img col)
                             (column (roll (Z.of_nat dx) (Z.of_nat dy) img) col))
               (seq 0 (width img))).

(** The scalar of distance [d]: the mean over the offsets. *)
Definition distance_scalar (img : image) (d : nat) : npfloat :=
  fmean (map (offset_correlation img) (offsets d)).

(** A dataset: every file of the list is on the disk, and the frames have
    one shape. *)
Definition frames_on_disk (fs : disk) (sh : list nat) (l : list string) : Prop :=
  Forall (fun name => exists img, fs name = Some img /\ shape img = sh) l.

(** The value [calculate_snr] returns for the adjacent pair [i], [i + 1] of
    a list of files. *)
Definition pair_value (fs : disk) (l : list string) (i : nat) : npfloat :=
  match l !! i, l !! (i + 1)%nat with
  | Some a, Some b =>
      match (calculate_snr fs a b).2 with
      | Returned v => v
      | _ => NaN
      end
  | _, _ => NaN
  end.

(** The taps of the window [ssim] builds. *)
Definition ssim_taps : list (R * Z * Z) :=
  taps (outer (getGaussianKernel 11 1.5) (getGaussianKernel 11 1.5)).

(** The value at [idx] of the filtered real image [xs]. *)
Definition local_stat (H W : nat) (xs : list R) (idx : nat * nat * nat) : R :=
  nth (flat_index W 1 idx)
      (map (filter_real H W 1 xs ssim_taps) (indices (seq 0 H) (seq 0 W) 1)) 0.

(** One entry of [ssim_map], from the local means [m1], [m2] and the local
    means [e11], [e22], [e12] of the squares and of the product. *)
Definition ssim_formula (m1 m2 e11 e22 e12 : R) : R :=
  ((2 * (m1 * m2) + C1) * (2 * (e12 - m1 * m2) + C2))
  / ((m1 * m1 + m2 * m2 + C1) * (e11 - m1 * m1 + (e22 - m2 * m2) + C2)).

(** What holds of the five local statistics at every pixel. *)
Definition local_stats_ok (m1 m2 e11 e22 e12 : R) : Prop :=
  m1 * m1 <= e11 /\ m2 * m2 <= e22
  /\ (m1 - m2) * (m1 - m2) <= e11 - 2 * e12 + e22
  /\ (m1 + m2) * (m1 + m2) <= e11 + 2 * e12 + e22.

Definition ssim_map_real (H W : nat) (xs ys : list R) : list R :=
  map (fun idx =>
         ssim_formula (local_stat H W xs idx) (local_stat H W ys idx)
           (local_stat H W (map (fun d => d * d) xs) idx)
           (local_stat H W (map (fun d => d * d) ys) idx)
           (local_stat H W (zip_with Rmult xs ys) idx))
      (indices (slice_5_m5 H) (slice_5_m5 W) 1).

(** NaN, or a number between -1 and 1. *)
Definition unit_or_nan (v : npfloat) : Prop :=
  v = NaN \/ exists r, v = Num r /\ -1 <= r <= 1.


(** A call that does not end without a [return]. *)
Definition no_none {A} (m : outcome A) : Prop := m <> ReturnedNone.

(** A disk with two frames of two pixels, for examples. *)
Definition two_frame_disk : disk := fun name =>
  if String.eqb name "a.tif" then Some (of_reals [1; 2]%nat [0; 1])
  else if String.eqb name "b.tif" then Some (of_reals [1; 2]%nat [1; 0])
  else None.


(** * Properties *)

(** One step of a sequence [x ← m; k] whose [m] has been evaluated. *)
Ltac step_bind := cbn [mbind outcome_mbind outcome_bind].

(** ** Arrays of finite reals *)

Lemma shape_eqb_refl (s : list nat) : shape_eqb s s = true.
Proof. induction s as [|n s IH]; simpl; [done|]. by rewrite Nat.eqb_refl, IH. Qed.

Lemma fsum_Num (xs : list R) : fsum (map Num xs) = Num (Rsum xs).
Proof.
  induction xs as [|x xs IH]; [done|].
  change (fadd (Num x) (fsum (map Num xs)) = Num (x + Rsum xs)).
  by rewrite IH.
Qed.

Lemma zip_with_f_Num (f : npfloat -> npfloat -> npfloat) (g : R -> R -> R)
    (xs ys : list R) :
  (forall a b, f (Num a) (Num b) = Num (g a b)) ->
  zip_with_f f (map Num xs) (map Num ys) = map Num (zip_with g xs ys).
Proof.
  intros Hfg. revert ys.
  induction xs as [|x xs IH]; intros [|y ys]; simpl; try done.
  by rewrite Hfg, IH.
Qed.

Lemma map_f_Num (f : npfloat -> npfloat) (g : R -> R) (xs : list R) :
  (forall a, f (Num a) = Num (g a)) ->
  map f (map Num xs) = map Num (map g xs).
Proof.
  intros Hfg. induction xs as [|x xs IH]; simpl; [done|]. by rewrite Hfg, IH.
Qed.

Lemma INR_length_pos {A} (l : list A) : l <> [] -> 0 < INR (length l).
Proof. destruct l; [done|]. intros _. apply lt_0_INR. simpl. lia. Qed.

Lemma fdiv_Num (a b : R) : b <> 0 -> fdiv (Num a) (Num b) = Num (a / b).
Proof. intros Hb. simpl. by destruct (Req_EM_T b 0). Qed.

Lemma fmean_Num (xs : list R) :
  xs <> [] -> fmean (map Num xs) = Num (Rsum xs / INR (length xs)).
Proof.
  intros Hxs. unfold fmean. rewrite fsum_Num, length_map.
  apply fdiv_Num. apply INR_length_pos in Hxs. lra.
Qed.

Lemma Rsum_cons (x : R) (xs : list R) : Rsum (x :: xs) = x + Rsum xs.
Proof. reflexivity. Qed.

Lemma Rsum_nonneg (xs : list R) : Forall (fun x => 0 <= x) xs -> 0 <= Rsum xs.
Proof. induction 1; simpl; lra. Qed.


(** ** [calculate_psnr] *)

Lemma sq_diffs_alt (xs ys : list R) :
  map (fun d => d * d) (zip_with Rminus xs ys) = sq_diffs xs ys.
Proof.
  unfold sq_diffs. revert ys.
  induction xs as [|x xs IH]; intros [|y ys]; simpl; try done. by rewrite IH.
Qed.

Lemma elementwise_of_reals (f : npfloat -> npfloat -> npfloat) (g : R -> R -> R)
    (sh : list nat) (xs ys : list R) :
  (forall a b, f (Num a) (Num b) = Num (g a b)) ->
  elementwise f (of_reals sh xs) (of_reals sh ys)
  = Returned (of_reals sh (zip_with g xs ys)).
Proof.
  intros Hfg. unfold elementwise, of_reals. simpl.
  by rewrite shape_eqb_refl, (zip_with_f_Num f g).
Qed.

Lemma amap_of_reals (f : npfloat -> npfloat) (g : R -> R)
    (sh : list nat) (xs : list R) :
  (forall a, f (Num a) = Num (g a)) ->
  amap f (of_reals sh xs) = of_reals sh (map g xs).
Proof. intros Hfg. unfold amap, of_reals. simpl. by rewrite (map_f_Num f g). Qed.

Lemma np_mean_of_reals (sh : list nat) (xs : list R) :
  xs <> [] -> np_mean (of_reals sh xs) = Num (Rsum xs / INR (length xs)).
Proof. intros Hxs. unfold np_mean, of_reals. simpl. by apply fmean_Num. Qed.

Lemma sq_diffs_nonempty (xs ys : list R) :
  length xs = length ys -> xs <> [] -> sq_diffs xs ys <> [].
Proof. destruct xs, ys; simpl; done. Qed.

Lemma MSE_nonneg (xs ys : list R) : sq_diffs xs ys <> [] -> 0 <= MSE xs ys.
Proof.
  intros Hne. unfold MSE. apply INR_length_pos in Hne.
  apply Rmult_le_pos.
  - apply Rsum_nonneg. unfold sq_diffs. clear. revert ys.
    induction xs as [|x xs IH]; intros [|y ys]; simpl; constructor; auto.
    apply Rle_0_sqr.
  - left. by apply Rinv_0_lt_compat.
Qed.

Lemma MSE_same (xs : list R) : MSE xs xs = 0.
Proof.
  unfold MSE. replace (Rsum (sq_diffs xs xs)) with 0; [lra|].
  unfold sq_diffs. induction xs as [|x xs IH]; simpl; [done|]. rewrite <- IH. lra.
Qed.

Lemma MSE_zero_same (xs ys : list R) :
  length xs = length ys -> xs <> [] -> MSE xs ys = 0 -> xs = ys.
Proof.
  intros Hlen Hne Hz.
  pose proof (INR_length_pos _ (sq_diffs_nonempty xs ys Hlen Hne)) as Hpos.
  unfold MSE in Hz.
  assert (Hs : Rsum (sq_diffs xs ys) = 0).
  { apply Rmult_integral in Hz as [Hz|Hz]; [done|].
    apply Rinv_0_lt_compat in Hpos. lra. }
  clear Hz Hpos Hne. revert ys Hlen Hs.
  induction xs as [|x xs IH]; intros [|y ys] Hlen Hs; simpl in *; try done.
  assert (Hrest : 0 <= Rsum (sq_diffs xs ys)).
  { apply Rsum_nonneg. unfold sq_diffs. clear. revert ys.
    induction xs as [|x xs IH]; intros [|y ys]; simpl; constructor; auto.
    apply Rle_0_sqr. }
  pose proof (Rle_0_sqr (x - y)) as Hsq. unfold Rsqr in Hsq.
  fold (sq_diffs xs ys) in Hs.
  assert (Hxy : (x - y) * (x - y) = 0) by lra.
  apply Rmult_integral in Hxy.
  f_equal; [lra|]. apply IH; [lia|lra].
Qed.

(** C5.  For two images of one shape with at least one pixel,
    [calculate_psnr] returns [20 log10 (255 / sqrt MSE)] where MSE is the mean
    squared pixel difference, and returns plus infinity when MSE is zero,
    which is the case exactly when the two images are identical.  (The
    statement asks nothing of the range of the intensities.) *)
Theorem calculate_psnr_correct (sh : list nat) (xs ys : list R) :
  length xs = length ys -> xs <> [] ->
  (MSE xs ys <> 0 ->
   calculate_psnr (of_reals sh xs) (of_reals sh ys)
   = Returned (Num (20 * log10 (255 / sqrt (MSE xs ys)))))
  /\ (MSE xs ys = 0 ->
      calculate_psnr (of_reals sh xs) (of_reals sh ys) = Returned PInf)
  /\ (MSE xs ys = 0 <-> xs = ys)
  /\ calculate_psnr (of_reals sh xs) (of_reals sh xs) = Returned PInf.
Proof.
  intros Hlen Hne.
  assert (Hrun : forall zs, length xs = length zs ->
    calculate_psnr (of_reals sh xs) (of_reals sh zs)
    = if Req_EM_T (MSE xs zs) 0 then Returned PInf
      else Returned (Num (20 * log10 (255 / sqrt (MSE xs zs))))).
  { intros zs Hzs. unfold calculate_psnr.
    rewrite (elementwise_of_reals fsub Rminus) by done. simpl.
    rewrite (amap_of_reals fsquare (fun d => d * d)) by done.
    pose proof (sq_diffs_nonempty xs zs Hzs Hne) as Hd.
    rewrite np_mean_of_reals by (by rewrite sq_diffs_alt).
    rewrite sq_diffs_alt. fold (MSE xs zs).
    pose proof (MSE_nonneg xs zs Hd) as Hge. simpl.
    destruct (Req_EM_T (MSE xs zs) 0) as [Hz|Hnz]; [done|]. simpl.
    destruct (Rlt_dec (MSE xs zs) 0) as [Hlt|_]; [lra|]. simpl.
    assert (Hs : 0 < sqrt (MSE xs zs)) by (apply sqrt_lt_R0; lra).
    unfold py_div. simpl.
    destruct (Req_EM_T (sqrt (MSE xs zs)) 0) as [Hs0|_]; [lra|]. simpl.
    destruct (Req_EM_T (sqrt (MSE xs zs)) 0) as [Hs0|_]; [lra|]. simpl.
    destruct (Rle_dec (255 / sqrt (MSE xs zs)) 0) as [Hq|_]; [|done].
    exfalso. assert (0 < 255 / sqrt (MSE xs zs)); [|lra].
    apply Rdiv_lt_0_compat; lra. }
  repeat split.
  - intros Hnz. rewrite (Hrun ys Hlen). by destruct (Req_EM_T (MSE xs ys) 0).
  - intros Hz. rewrite (Hrun ys Hlen). by destruct (Req_EM_T (MSE xs ys) 0).
  - by apply MSE_zero_same.
  - intros ->. apply MSE_same.
  - rewrite (Hrun xs eq_refl). destruct (Req_EM_T (MSE xs xs) 0) as [|Hn]; [done|].
    destruct Hn. apply MSE_same.
Qed.

Lemma calculate_psnr_correct_witness :
  calculate_psnr (of_reals [1; 2]%nat [0; 255]) (of_reals [1; 2]%nat [0; 0])
  = Returned (Num (20 * log10 (255 / sqrt (MSE [0; 255] [0; 0])))).
Proof.
  apply (calculate_psnr_correct [1; 2]%nat [0; 255] [0; 0]); [reflexivity|done|].
  unfold MSE. simpl. lra.
Defined.

(** ** [calculate_snr] *)

Lemma fdiv_scale (d s n : R) :
  0 < n -> fdiv (Num (d / n)) (Num (s / n)) = fdiv (Num d) (Num s).
Proof.
  intros Hn. simpl.
  assert (Hin : 0 < / n) by (by apply Rinv_0_lt_compat).
  destruct (Req_EM_T s 0) as [->|Hs].
  - destruct (Req_EM_T (0 / n) 0) as [_|Hc]; [|exfalso; apply Hc; lra].
    destruct (Req_EM_T d 0) as [->|Hd].
    + destruct (Req_EM_T (0 / n) 0) as [_|Hc]; [done|exfalso; apply Hc; lra].
    + destruct (Req_EM_T (d / n) 0) as [Hc|_].
      * exfalso. apply Hd. unfold Rdiv in Hc.
        apply Rmult_integral in Hc as [Hc|Hc]; lra.
      * unfold signed_inf.
        destruct (Rlt_dec d 0) as [Hlt|Hge], (Rlt_dec (d / n) 0) as [Hlt'|Hge'];
          try done; exfalso; unfold Rdiv in *; nra.
  - destruct (Req_EM_T (s / n) 0) as [Hc|_].
    + exfalso. apply Hs. unfold Rdiv in Hc.
      apply Rmult_integral in Hc as [Hc|Hc]; lra.
    + f_equal. field. split; lra.
Qed.

Lemma zip_with_self {A B} (f : A -> A -> B) (l : list A) :
  zip_with f l l = map (fun x => f x x) l.
Proof. induction l as [|x l IH]; simpl; [done|]. by rewrite IH. Qed.

Lemma dot_self_nonneg (xs : list R) : 0 <= dot xs xs.
Proof.
  unfold dot. apply Rsum_nonneg. rewrite zip_with_self.
  apply Forall_map, Forall_forall. intros x _. apply Rle_0_sqr.
Qed.

Lemma correlation_r_of_reals (sh : list nat) (xs ys : list R) :
  length xs = length ys ->
  correlation_r (of_reals sh xs) (of_reals sh ys) = Returned (pearson_r xs ys).
Proof.
  intros Hlen. destruct (decide (xs = [])) as [->|Hne].
  - destruct ys; [|done].
    unfold correlation_r, pearson_r, of_reals, np_mean, elementwise, amap, fmean, dot.
    cbn. rewrite shape_eqb_refl. cbn.
    rewrite Rmult_0_l, sqrt_0.
    by destruct (Req_EM_T 0 0).
  - assert (Hney : ys <> []) by (destruct xs, ys; done).
    unfold correlation_r. rewrite !np_mean_of_reals by done.
    fold (Rmean xs) (Rmean ys).
    rewrite (amap_of_reals (fun v => fsub v (Num (Rmean xs)))
               (fun x => x - Rmean xs)) by done.
    rewrite (amap_of_reals (fun v => fsub v (Num (Rmean ys)))
               (fun y => y - Rmean ys)) by done.
    fold (centered xs) (centered ys).
    rewrite (elementwise_of_reals fmul Rmult) by done. step_bind.
    rewrite !(amap_of_reals fsquare (fun d => d * d)) by done.
    assert (Hlc : forall l : list R, length (centered l) = length l)
      by (intros l; unfold centered; by rewrite length_map).
    assert (Hn : 0 < INR (length xs)) by (by apply INR_length_pos).
    rewrite !np_mean_of_reals.
    2,3: intros Hnil; apply (f_equal length) in Hnil;
         rewrite length_map, Hlc in Hnil; by destruct xs, ys.
    2: { intros Hnil; apply (f_equal length) in Hnil.
         rewrite length_zip_with, !Hlc, <- Hlen in Hnil. destruct xs; [done|].
         simpl in Hnil. lia. }
    rewrite !length_map, length_zip_with, !Hlc, <- Hlen, Nat.min_id.
    rewrite <- !zip_with_self. fold (dot (centered xs) (centered ys)).
    fold (dot (centered xs) (centered xs)) (dot (centered ys) (centered ys)).
    f_equal. unfold pearson_r.
    pose proof (dot_self_nonneg (centered xs)) as Hx.
    pose proof (dot_self_nonneg (centered ys)) as Hy.
    set (n := INR (length xs)) in *.
    set (dx := dot (centered xs) (centered xs)) in *.
    set (dy := dot (centered ys) (centered ys)) in *.
    cbn [fmul fsqrt].
    destruct (Rlt_dec (dx / n * (dy / n)) 0) as [Hneg|_].
    { exfalso. assert (0 <= dx / n * (dy / n)); [|lra].
      apply Rmult_le_pos; apply Rmult_le_pos; try done;
        left; by apply Rinv_0_lt_compat. }
    replace (dx / n * (dy / n)) with (dx * dy * (/ n * / n)) by (field; lra).
    rewrite sqrt_mult_alt by (by apply Rmult_le_pos).
    rewrite sqrt_square by (left; by apply Rinv_0_lt_compat).
    by apply fdiv_scale.
Qed.

Lemma flog10_neg (a : R) : a < 0 -> flog10 (Num a) = NaN.
Proof. intros Ha. unfold flog10. destruct (Rlt_dec a 0); [done|lra]. Qed.

Lemma flog10_pos (a : R) : 0 < a -> flog10 (Num a) = Num (log10 a).
Proof.
  intros Ha. unfold flog10. destruct (Rlt_dec a 0); [lra|].
  destruct (Req_EM_T a 0); [lra|done].
Qed.

Lemma snr_db_Num (v : R) :
  v <> 1 -> snr_db (Num v) = fmul (Num 10) (flog10 (Num (v / (1 - v)))).
Proof.
  intros Hv. unfold snr_db. do 2 f_equal.
  change (fsub (Num 1) (Num v)) with (Num (1 - v)).
  apply fdiv_Num. lra.
Qed.

(** C2.  On two frames of one shape [calculate_snr] returns
    [10 log10 (r / (1 - r))] for the Pearson correlation [r] of the
    mean-centred intensities.  A negative [r] raises nothing: the pair and [r]
    are printed, and ten times the logarithm of the negative quotient, which
    is NaN, is returned. *)
Theorem calculate_snr_correct (fs : disk) (p1 p2 : string) (sh : list nat)
    (xs ys : list R) :
  fs p1 = Some (of_reals sh xs) ->
  fs p2 = Some (of_reals sh ys) ->
  length xs = length ys ->
  calculate_snr fs p1 p2
  = ((if flt0 (pearson_r xs ys) then [Printed p1 p2 (pearson_r xs ys)] else []),
     Returned (snr_db (pearson_r xs ys)))
  /\ (forall v, pearson_r xs ys = Num v -> v < 0 ->
        snr_db (Num v) = fmul (Num 10) (flog10 (Num (v / (1 - v))))
        /\ flog10 (Num (v / (1 - v))) = NaN
        /\ calculate_snr fs p1 p2 = ([Printed p1 p2 (Num v)], Returned NaN))
  /\ (forall v, pearson_r xs ys = Num v -> 0 < v < 1 ->
        calculate_snr fs p1 p2
        = ([], Returned (Num (10 * log10 (v / (1 - v)))))).
Proof.
  intros H1 H2 Hlen.
  assert (Hrun : calculate_snr fs p1 p2
    = ((if flt0 (pearson_r xs ys) then [Printed p1 p2 (pearson_r xs ys)] else []),
       Returned (snr_db (pearson_r xs ys)))).
  { unfold calculate_snr. rewrite H1, H2.
    by rewrite (correlation_r_of_reals sh xs ys Hlen). }
  split; [done|]. split.
  - intros v Hv Hneg. rewrite Hrun, Hv.
    assert (Hq : v / (1 - v) < 0).
    { unfold Rdiv. assert (0 < / (1 - v)) by (apply Rinv_0_lt_compat; lra). nra. }
    rewrite snr_db_Num by lra. rewrite flog10_neg by done.
    repeat split. unfold flt0. by destruct (Rlt_dec v 0); [|lra].
  - intros v Hv [Hpos Hlt1]. rewrite Hrun, Hv.
    assert (Hq : 0 < v / (1 - v)) by (apply Rdiv_lt_0_compat; lra).
    rewrite snr_db_Num by lra. rewrite flog10_pos by done.
    unfold flt0. by destruct (Rlt_dec v 0); [lra|].
Qed.

Lemma pearson_r_example : pearson_r [0; 1] [1; 0] = Num (-1).
Proof.
  unfold pearson_r, dot, centered, Rmean. cbn.
  replace ((0 - (0 + (1 + 0)) / (1 + 1)) * (0 - (0 + (1 + 0)) / (1 + 1))
           + ((1 - (0 + (1 + 0)) / (1 + 1)) * (1 - (0 + (1 + 0)) / (1 + 1)) + 0))
    with (/ 2) by field.
  replace ((1 - (1 + (0 + 0)) / (1 + 1)) * (1 - (1 + (0 + 0)) / (1 + 1))
           + ((0 - (1 + (0 + 0)) / (1 + 1)) * (0 - (1 + (0 + 0)) / (1 + 1)) + 0))
    with (/ 2) by field.
  rewrite sqrt_square by lra.
  destruct (Req_EM_T (/ 2) 0) as [Hc|_]; [lra|]. f_equal. field.
Qed.

Lemma calculate_snr_correct_witness :
  calculate_snr two_frame_disk "a.tif" "b.tif"
  = ([Printed "a.tif" "b.tif" (Num (-1))], Returned NaN).
Proof.
  destruct (calculate_snr_correct two_frame_disk "a.tif" "b.tif" [1; 2]%nat
              [0; 1] [1; 0] eq_refl eq_refl eq_refl) as (_ & Hneg & _).
  apply (Hneg (-1)); [apply pearson_r_example | lra].
Defined.

Lemma fmul_comm (x y : npfloat) : fmul x y = fmul y x.
Proof. destruct x, y; simpl; try done. f_equal. lra. Qed.

Lemma zip_with_f_comm (f : npfloat -> npfloat -> npfloat) (xs ys : list npfloat) :
  (forall a b, f a b = f b a) -> zip_with_f f xs ys = zip_with_f f ys xs.
Proof.
  intros Hf. revert ys. induction xs as [|x xs IH]; intros [|y ys]; simpl; try done.
  by rewrite Hf, IH.
Qed.

Lemma shape_eqb_sym (s t : list nat) : shape_eqb s t = shape_eqb t s.
Proof.
  revert t. induction s as [|m s IH]; intros [|n t]; simpl; try done.
  by rewrite Nat.eqb_sym, IH.
Qed.

Lemma correlation_r_sym (img1 img2 : ndarray) :
  correlation_r img1 img2 = correlation_r img2 img1.
Proof.
  unfold correlation_r, elementwise. cbn [shape amap data].
  rewrite (shape_eqb_sym (shape img2)).
  destruct (shape_eqb (shape img1) (shape img2)); [|done].
  cbn. unfold np_mean. cbn [data].
  rewrite (zip_with_f_comm fmul (map _ (data img2))) by apply fmul_comm.
  do 3 f_equal. apply fmul_comm.
Qed.

Lemma snr_db_grows (M : R) :
  exists delta, 0 < delta /\
    forall r, 1 - delta < r < 1 ->
      exists v, snr_db (Num r) = Num v /\ M < v.
Proof.
  set (K := exp (M * ln 10 / 10)).
  assert (HK : 0 < K) by apply exp_pos.
  assert (Hl10 : 0 < ln 10).
  { rewrite <- ln_1. apply ln_increasing; lra. }
  exists (/ (2 * (K + 1))). split; [apply Rinv_0_lt_compat; lra|].
  intros r [Hlo Hhi].
  assert (Hd : / (2 * (K + 1)) <= / 2).
  { apply Rinv_le_contravar; lra. }
  assert (Hr : / 2 < r) by lra.
  assert (Hq : K < r / (1 - r)).
  { apply Rlt_trans with (/ 2 * (2 * (K + 1))); [field_simplify; lra|].
    unfold Rdiv. apply Rmult_gt_0_lt_compat; [lra|lra|lra|].
    rewrite <- (Rinv_inv (2 * (K + 1))).
    apply Rinv_lt_contravar; [|lra].
    apply Rmult_lt_0_compat; [lra|]. apply Rinv_0_lt_compat; lra. }
  exists (10 * log10 (r / (1 - r))). split.
  - rewrite snr_db_Num by lra. by rewrite flog10_pos by lra.
  - unfold log10.
    assert (Hln : M * ln 10 / 10 < ln (r / (1 - r))).
    { rewrite <- (ln_exp (M * ln 10 / 10)). fold K. apply ln_increasing; lra. }
    apply Rmult_lt_reg_r with (ln 10); [done|].
    replace (10 * (ln (r / (1 - r)) / ln 10) * ln 10)
      with (10 * ln (r / (1 - r))) by (field; lra).
    lra.
Qed.

Lemma snr_db_one : snr_db (Num 1) = PInf.
Proof.
  unfold snr_db. cbn.
  destruct (Req_EM_T (1 + - (1)) 0) as [_|Hc]; [|lra].
  destruct (Req_EM_T 1 0) as [Hc|_]; [lra|].
  unfold signed_inf. destruct (Rlt_dec 1 0) as [Hc|_]; [lra|]. cbn.
  destruct (Req_EM_T 10 0) as [Hc|_]; [lra|].
  destruct (Rlt_dec 10 0) as [Hc|_]; [lra|done].
Qed.

Lemma pearson_r_self (xs : list R) :
  dot (centered xs) (centered xs) <> 0 -> pearson_r xs xs = Num 1.
Proof.
  intros Hv. unfold pearson_r.
  pose proof (dot_self_nonneg (centered xs)) as Hge.
  rewrite sqrt_square by done.
  rewrite fdiv_Num by done. f_equal. by field.
Qed.

(** C8.  The value [calculate_snr] returns is the same for both orders of
    its two arguments, whatever is on the disk.  For a frame that is not
    constant [calculate_snr(a, a)] is plus infinity, because [r] is one; and
    [10 log10 (r / (1 - r))] exceeds every bound as [r] approaches one from
    below. *)
Theorem calculate_snr_symmetric :
  (forall (fs : disk) (a b : string),
     (calculate_snr fs a b).2 = (calculate_snr fs b a).2)
  /\ (forall (fs : disk) (a : string) (sh : list nat) (xs : list R),
        fs a = Some (of_reals sh xs) ->
        dot (centered xs) (centered xs) <> 0 ->
        (calculate_snr fs a a).2 = Returned PInf)
  /\ (forall M : R, exists delta, 0 < delta /\
        forall r, 1 - delta < r < 1 ->
          exists v, snr_db (Num r) = Num v /\ M < v).
Proof.
  repeat split.
  - intros fs a b. unfold calculate_snr.
    destruct (fs a) as [img1|], (fs b) as [img2|]; try done.
    rewrite (correlation_r_sym img2 img1).
    by destruct (correlation_r img1 img2).
  - intros fs a sh xs Ha Hv. unfold calculate_snr. rewrite Ha.
    rewrite (correlation_r_of_reals sh xs xs eq_refl).
    rewrite pearson_r_self by done. cbn [snd]. by rewrite snr_db_one.
  - apply snr_db_grows.
Qed.

Lemma calculate_snr_symmetric_witness :
  (calculate_snr two_frame_disk "a.tif" "a.tif").2 = Returned PInf.
Proof.
  destruct calculate_snr_symmetric as (_ & Hself & _).
  apply (Hself two_frame_disk "a.tif" [1; 2]%nat [0; 1] eq_refl).
  unfold dot, centered, Rmean. cbn. lra.
Defined.

(** ** [calculate_ssim] *)




(** The errors [calculate_ssim] does raise. *)
Lemma calculate_ssim_shape_mismatch (img1 img2 : ndarray) :
  shape_eqb (shape img1) (shape img2) = false ->
  calculate_ssim img1 img2
  = Raised "ValueError: Input images must have the same dimensions.".
Proof. intros H. unfold calculate_ssim. by rewrite H. Qed.

Lemma calculate_ssim_wrong_ndim (img1 img2 : ndarray) :
  shape img1 = shape img2 ->
  ndim img1 <> 2%nat -> ndim img1 <> 3%nat ->
  calculate_ssim img1 img2 = Raised "ValueError: Wrong input image dimensions.".
Proof.
  intros Hsh H2 H3. unfold calculate_ssim. rewrite <- Hsh, shape_eqb_refl. cbn.
  apply Nat.eqb_neq in H2, H3. by rewrite H2, H3.
Qed.

(** A 3-D input whose third dimension is neither 1 nor 3 reaches no
    [return] and no [raise]. *)
Lemma calculate_ssim_other_channels (img1 img2 : ndarray) :
  shape img1 = shape img2 ->
  ndim img1 = 3%nat ->
  nth 2 (shape img1) 0%nat <> 3%nat ->
  nth 2 (shape img1) 0%nat <> 1%nat ->
  calculate_ssim img1 img2 = ReturnedNone.
Proof.
  intros Hsh Hnd H3 H1. unfold calculate_ssim.
  rewrite <- Hsh, shape_eqb_refl, Hnd. cbn.
  apply Nat.eqb_neq in H3, H1. by rewrite H3, H1.
Qed.

(** C3.  Two equal images of shape (11, 11, 2): the third dimension is
    neither 1 nor 3, and [calculate_ssim] raises nothing; it returns
    [None]. *)
Theorem calculate_ssim_two_channels_returns_none :
  calculate_ssim (of_reals [11; 11; 2]%nat (replicate 242 0))
                 (of_reals [11; 11; 2]%nat (replicate 242 0))
  = ReturnedNone.
Proof. reflexivity. Qed.

(** ** [ssim] on an image without special values *)

Lemma border_reflect_101_range (p len : Z) :
  (0 < len)%Z -> (0 <= border_reflect_101 p len < len)%Z.
Proof.
  intros Hlen. unfold border_reflect_101.
  destruct ((0 <=? p) && (p <? len))%Z eqn:Hin.
  { apply andb_true_iff in Hin as [H1%Z.leb_le H2%Z.ltb_lt]. lia. }
  destruct (len =? 1)%Z eqn:H1; [lia|]. apply Z.eqb_neq in H1.
  pose proof (Z.mod_pos_bound p (2 * (len - 1)) ltac:(lia)) as Hq.
  destruct (p mod (2 * (len - 1)) <? len)%Z eqn:Hlt.
  - apply Z.ltb_lt in Hlt. lia.
  - apply Z.ltb_ge in Hlt. lia.
Qed.

Lemma flat_index_bound (H W C i j c : nat) :
  (i < H)%nat -> (j < W)%nat -> (c < C)%nat ->
  (flat_index W C (i, j, c) < H * W * C)%nat.
Proof.
  intros Hi Hj Hc. unfold flat_index.
  assert (i * W + j + 1 <= H * W)%nat by nia.
  assert ((i * W + j + 1) * C <= H * W * C)%nat by (apply Nat.mul_le_mono_r; lia).
  lia.
Qed.

Lemma nth_Num (k : nat) (xs : list R) :
  (k < length xs)%nat -> nth k (map Num xs) NaN = Num (nth k xs 0).
Proof.
  revert k. induction xs as [|x xs IH]; intros [|k] Hk; simpl in *; try lia; [done|].
  apply IH. lia.
Qed.

Lemma elem_of_indices (rows cols : list nat) (C : nat) (i j c : nat) :
  (i, j, c) ∈ indices rows cols C <-> i ∈ rows /\ j ∈ cols /\ (c < C)%nat.
Proof.
  unfold indices. rewrite !list_elem_of_In, in_flat_map. split.
  - intros (i' & Hi & Hin). apply in_flat_map in Hin as (j' & Hj & Hin).
    apply in_map_iff in Hin as (c' & [= -> -> ->] & Hc).
    apply in_seq in Hc. repeat split; try done. lia.
  - intros (Hi & Hj & Hc). exists i. split; [done|].
    apply in_flat_map. exists j. split; [done|].
    apply in_map_iff. exists c. split; [done|]. apply in_seq. lia.
Qed.

Lemma length_indices (rows cols : list nat) (C : nat) :
  length (indices rows cols C) = (length rows * length cols * C)%nat.
Proof.
  unfold indices. induction rows as [|i rows IH]; simpl; [done|].
  rewrite length_app, IH.
  assert (Hin : forall l : list nat,
    length (flat_map (fun j => map (fun c => (i, j, c)) (seq 0 C)) l)
    = (length l * C)%nat).
  { induction l as [|j l IHl]; simpl; [done|].
    by rewrite length_app, length_map, length_seq, IHl. }
  rewrite Hin. lia.
Qed.

Lemma filter_pixel_of_reals (H W C : nat) (xs : list R) (tp : list (R * Z * Z))
    (i j c : nat) :
  (0 < H)%nat -> (0 < W)%nat -> (c < C)%nat -> length xs = (H * W * C)%nat ->
  filter_pixel H W C (map Num xs) tp (i, j, c)
  = Num (filter_real H W C xs tp (i, j, c)).
Proof.
  intros HH HW Hc Hlen. unfold filter_pixel, filter_real.
  rewrite <- fsum_Num, map_map. f_equal. apply map_ext. intros [[w di] dj].
  unfold pixel. cbn [fst tap_index flat_index].
  rewrite nth_Num; [done|]. rewrite Hlen.
  pose proof (border_reflect_101_range (Z.of_nat i + di) (Z.of_nat H) ltac:(lia)).
  pose proof (border_reflect_101_range (Z.of_nat j + dj) (Z.of_nat W) ltac:(lia)).
  apply (flat_index_bound H W C); lia.
Qed.

Lemma filter2D_of_reals (H W : nat) (xs : list R) (window : list (list R)) :
  (0 < H)%nat -> (0 < W)%nat -> length xs = (H * W)%nat ->
  filter2D (of_reals [H; W] xs) window
  = Returned (of_reals [H; W]
      (map (filter_real H W 1 xs (taps window)) (indices (seq 0 H) (seq 0 W) 1))).
Proof.
  intros HH HW Hlen. unfold filter2D, image_view, of_reals. cbn [shape data].
  destruct (Nat.eqb_spec H 0) as [|_]; [lia|].
  destruct (Nat.eqb_spec W 0) as [|_]; [lia|]. cbn [orb].
  do 2 f_equal. rewrite map_map. apply map_ext_in. intros [[i j] c] Hin.
  apply list_elem_of_In, elem_of_indices in Hin as (_ & _ & Hc).
  apply filter_pixel_of_reals; try done. lia.
Qed.

Lemma crop_of_reals (H W : nat) (ys : list R) :
  length ys = (H * W)%nat ->
  crop (of_reals [H; W] ys)
  = Returned (of_reals [H - 10; W - 10]%nat (crop_real H W 1 ys)).
Proof.
  intros Hlen. unfold crop, of_reals, crop_real. cbn [shape data size_of fold_right].
  do 2 f_equal. rewrite map_map. apply map_ext_in. intros [[i j] c] Hin.
  apply list_elem_of_In, elem_of_indices in Hin as (Hi & Hj & Hc).
  unfold slice_5_m5 in Hi, Hj.
  apply list_elem_of_In, in_seq in Hi. apply list_elem_of_In, in_seq in Hj.
  unfold pixel. apply nth_Num. rewrite Hlen.
  replace (H * W)%nat with (H * W * 1)%nat by lia.
  apply (flat_index_bound H W 1 i j c); lia.
Qed.

Lemma length_filtered (H W : nat) (f : nat * nat * nat -> R) :
  length (map f (indices (seq 0 H) (seq 0 W) 1)) = (H * W)%nat.
Proof. rewrite length_map, length_indices, !length_seq. lia. Qed.

Lemma zip_with_map_same {A B C D} (f : B -> C -> D) (g : A -> B) (h : A -> C)
    (l : list A) :
  zip_with f (map g l) (map h l) = map (fun x => f (g x) (h x)) l.
Proof. induction l as [|x l IH]; simpl; [done|]. by rewrite IH. Qed.

Lemma elementwise_fdiv_of_reals (sh : list nat) (xs ys : list R) :
  Forall (fun y => y <> 0) ys ->
  elementwise fdiv (of_reals sh xs) (of_reals sh ys)
  = Returned (of_reals sh (zip_with Rdiv xs ys)).
Proof.
  intros Hys. unfold elementwise, of_reals. cbn [shape data].
  rewrite shape_eqb_refl. do 2 f_equal. revert xs.
  induction Hys as [|y ys Hy Hys IH]; intros [|x xs]; simpl; try done.
  destruct (Req_EM_T y 0); [done|]. by rewrite IH.
Qed.

Lemma nth_map_pointwise {A} (P : R -> R -> Prop) (f g : A -> R) (l : list A)
    (k : nat) :
  P 0 0 -> (forall x, P (f x) (g x)) ->
  P (nth k (map f l) 0) (nth k (map g l) 0).
Proof.
  intros H0 Hfg. revert k. induction l as [|x l IH]; intros [|k]; simpl; auto.
Qed.

Lemma Rsum_const_one {A} (l : list A) : Rsum (map (fun _ => 1) l) = INR (length l).
Proof.
  induction l as [|x l IH]; [done|].
  cbn [map length]. rewrite Rsum_cons, IH, S_INR. lra.
Qed.

(** A weighted mean with weights that are not negative and sum to one:
    its square is at most the weighted mean of the squares. *)
Lemma weighted_jensen {A} (w p : A -> R) (l : list A) :
  Forall (fun t => 0 <= w t) l ->
  Rsum (map w l) = 1 ->
  Rsum (map (fun t => w t * p t) l) * Rsum (map (fun t => w t * p t) l)
  <= Rsum (map (fun t => w t * (p t * p t)) l).
Proof.
  intros Hw Hone. set (mu := Rsum (map (fun t => w t * p t) l)).
  assert (Hexp : forall m : R,
    Rsum (map (fun t => w t * ((p t - m) * (p t - m))) l)
    = Rsum (map (fun t => w t * (p t * p t)) l)
      - 2 * m * Rsum (map (fun t => w t * p t) l)
      + m * m * Rsum (map w l)).
  { intros m. clear. induction l as [|t l IH]; [cbn; lra|].
    cbn [map]. rewrite !Rsum_cons, IH. ring. }
  assert (Hge : 0 <= Rsum (map (fun t => w t * ((p t - mu) * (p t - mu))) l)).
  { apply Rsum_nonneg, Forall_map. eapply Forall_impl; [exact Hw|].
    intros t Ht. cbn. apply Rmult_le_pos; [done|]. apply Rle_0_sqr. }
  rewrite (Hexp mu), Hone in Hge. fold mu in Hge. lra.
Qed.

(** The Gaussian window: weights that are not negative and sum to one. *)

Lemma Rsum_app (xs ys : list R) : Rsum (xs ++ ys) = Rsum xs + Rsum ys.
Proof.
  induction xs as [|x xs IH]; [cbn [app]; change (Rsum []) with 0; lra|].
  cbn [app]. rewrite !Rsum_cons, IH. lra.
Qed.

Lemma Rsum_scale (a : R) (xs : list R) :
  Rsum (map (fun t => t * a) xs) = Rsum xs * a.
Proof.
  induction xs as [|x xs IH]; [cbn [map]; change (Rsum []) with 0; lra|].
  cbn [map]. rewrite !Rsum_cons, IH. lra.
Qed.

Lemma Rsum_scale_l (a : R) (xs : list R) :
  Rsum (map (fun t => a * t) xs) = a * Rsum xs.
Proof.
  induction xs as [|x xs IH]; [cbn [map]; change (Rsum []) with 0; lra|].
  cbn [map]. rewrite !Rsum_cons, IH. lra.
Qed.

Lemma Rsum_pos (xs : list R) :
  xs <> [] -> Forall (fun x => 0 < x) xs -> 0 < Rsum xs.
Proof.
  intros Hne Hall. destruct Hall as [|x xs Hx Hxs]; [done|].
  rewrite Rsum_cons.
  assert (0 <= Rsum xs); [|lra].
  apply Rsum_nonneg. eapply Forall_impl; [exact Hxs|]. intros; cbn in *; lra.
Qed.

Lemma gaussian_kernel_weights (ksize : nat) (sigma : R) :
  (0 < ksize)%nat ->
  Forall (fun w => 0 <= w) (getGaussianKernel ksize sigma)
  /\ Rsum (getGaussianKernel ksize sigma) = 1.
Proof.
  intros Hk. unfold getGaussianKernel.
  set (raw := map (gaussian_raw ksize sigma) (seq 0 ksize)).
  assert (Hraw : Forall (fun x => 0 < x) raw).
  { apply Forall_map, Forall_forall. intros i _. apply exp_pos. }
  assert (Hne : raw <> []).
  { intros Hnil. apply (f_equal length) in Hnil. unfold raw in Hnil.
    rewrite length_map, length_seq in Hnil. simpl in Hnil. lia. }
  pose proof (Rsum_pos raw Hne Hraw) as HS.
  assert (Hinv : 0 < / Rsum raw) by (by apply Rinv_0_lt_compat).
  split.
  - apply Forall_map. eapply Forall_impl; [exact Hraw|].
    intros x Hx. cbn in *. apply Rmult_le_pos; lra.
  - rewrite Rsum_scale. field. lra.
Qed.

Lemma outer_weights (u v : list R) :
  Forall (fun w => 0 <= w) u -> Forall (fun w => 0 <= w) v ->
  Forall (fun w => 0 <= w) (concat (outer u v))
  /\ Rsum (concat (outer u v)) = Rsum u * Rsum v.
Proof.
  intros Hu Hv. unfold outer. induction Hu as [|a u Ha Hu [IH1 IH2]].
  - cbn. split; [constructor|lra].
  - cbn [map concat]. split.
    + apply Forall_app. split; [|done].
      apply Forall_map. eapply Forall_impl; [exact Hv|].
      intros b Hb. cbn in *. by apply Rmult_le_pos.
    + rewrite Rsum_app, IH2, Rsum_scale_l, Rsum_cons. lra.
Qed.

Lemma imap_weights (F : nat -> R -> R * Z * Z) (row : list R) :
  (forall b w, (F b w).1.1 = w) ->
  map (fun t : R * Z * Z => t.1.1) (imap F row) = row.
Proof.
  revert F. induction row as [|w row IH]; intros F HF; [done|].
  rewrite imap_cons. cbn [map]. rewrite HF. f_equal.
  apply IH. intros b w'. apply HF.
Qed.

Lemma taps_weights (window : list (list R)) :
  map (fun t : R * Z * Z => t.1.1) (taps window) = concat window.
Proof.
  unfold taps.
  generalize (Z.of_nat (length window / 2)) as ay.
  generalize (Z.of_nat (length (hd [] window) / 2)) as ax.
  intros ax ay. rewrite concat_map. f_equal.
  set (G := fun (a : nat) (row : list R) =>
              imap (fun b w => (w, (Z.of_nat a - ay)%Z, (Z.of_nat b - ax)%Z)) row).
  change (map (map (fun t : R * Z * Z => t.1.1)) (imap G window) = window).
  assert (HG : forall a row, map (fun t : R * Z * Z => t.1.1) (G a row) = row).
  { intros a row. unfold G. by apply imap_weights. }
  clearbody G. revert G HG.
  induction window as [|row window IH]; intros G HG; [done|].
  rewrite imap_cons. cbn [map]. rewrite HG. f_equal.
  apply IH. intros a row'. apply HG.
Qed.

Lemma ssim_window_weights :
  let tp := taps (outer (getGaussianKernel 11 1.5) (getGaussianKernel 11 1.5)) in
  Forall (fun t => 0 <= t.1.1) tp /\ Rsum (map (fun t => t.1.1) tp) = 1.
Proof.
  intros tp. unfold tp.
  destruct (gaussian_kernel_weights 11 1.5 ltac:(lia)) as [Hk1 Hk2].
  destruct (outer_weights _ _ Hk1 Hk1) as [Ho1 Ho2].
  rewrite taps_weights, Ho2, Hk2. split; [|lra].
  apply Forall_map. rewrite taps_weights. done.
Qed.

Lemma ssim_identical (H W : nat) (xs : list R) :
  (11 <= H)%nat -> (11 <= W)%nat -> length xs = (H * W)%nat ->
  ssim (of_reals [H; W] xs) (of_reals [H; W] xs) = Returned (Num 1).
Proof.
  intros HH HW Hlen. unfold ssim.
  destruct ssim_window_weights as [Hw Hone].
  set (tp := taps (outer (getGaussianKernel 11 1.5) (getGaussianKernel 11 1.5))) in *.
  set (sq := fun d : R => d * d).
  set (all := indices (seq 0 H) (seq 0 W) 1).
  set (FM := map (filter_real H W 1 xs tp) all).
  set (FE := map (filter_real H W 1 (map sq xs) tp) all).
  set (m := fun idx => nth (flat_index W 1 idx) FM 0).
  set (e := fun idx => nth (flat_index W 1 idx) FE 0).
  set (inner := indices (slice_5_m5 H) (slice_5_m5 W) 1).
  assert (HM : crop_real H W 1 FM = map m inner) by done.
  assert (HE : crop_real H W 1 FE = map e inner) by done.
  rewrite (amap_of_reals fsquare sq) by done.
  rewrite (elementwise_of_reals fmul Rmult [H; W] xs xs) by done.
  rewrite zip_with_self. fold sq.
  repeat first
    [ rewrite filter2D_of_reals by (rewrite ?length_map; lia)
    | rewrite crop_of_reals by apply length_filtered
    | progress step_bind ].
  fold tp. fold all. fold FM. fold FE.
  rewrite HM, HE.
  rewrite (amap_of_reals fsquare sq) by done.
  rewrite (elementwise_of_reals fmul Rmult) by done. step_bind.
  rewrite !(elementwise_of_reals fsub Rminus) by done. step_bind.
  rewrite (amap_of_reals (fun v => fadd (fmul (Num 2) v) (Num C1))
             (fun v => 2 * v + C1)) by done.
  rewrite (amap_of_reals (fun v => fadd (fmul (Num 2) v) (Num C2))
             (fun v => 2 * v + C2)) by done.
  rewrite (elementwise_of_reals fmul Rmult) by done. step_bind.
  rewrite !(elementwise_of_reals fadd Rplus) by done. step_bind.
  rewrite (amap_of_reals (fun v => fadd v (Num C1)) (fun v => v + C1)) by done.
  rewrite (amap_of_reals (fun v => fadd v (Num C2)) (fun v => v + C2)) by done.
  rewrite (elementwise_of_reals fmul Rmult) by done. step_bind.
  rewrite !map_map, !zip_with_map_same.
  repeat rewrite ?map_map, ?zip_with_map_same.
  assert (HC1 : 0 < C1) by (unfold C1; apply Rmult_lt_0_compat; lra).
  assert (HC2 : 0 < C2) by (unfold C2; apply Rmult_lt_0_compat; lra).
  assert (Hvar : forall idx, m idx * m idx <= e idx).
  { intros idx. unfold m, e, FM, FE.
    apply (nth_map_pointwise (fun a b => a * a <= b)); [lra|].
    intros x. unfold filter_real.
    set (p := fun t : R * Z * Z => nth (flat_index W 1 (tap_index H W 1 x t)) xs 0).
    replace (map (fun t : R * Z * Z =>
                    t.1.1 * nth (flat_index W 1 (tap_index H W 1 x t)) (map sq xs) 0) tp)
      with (map (fun t : R * Z * Z => t.1.1 * (p t * p t)) tp).
    - by apply (weighted_jensen (fun t : R * Z * Z => t.1.1) p).
    - apply map_ext. intros t. f_equal. unfold p.
      replace 0 with (sq 0) at 3 by (unfold sq; lra).
      by rewrite map_nth. }
  assert (Hsq : forall v, 0 <= sq v) by (intros v; apply Rle_0_sqr).
  assert (Hden : forall idx,
    0 < sq (m idx) + sq (m idx) + C1
    /\ 0 < e idx - sq (m idx) + (e idx - sq (m idx)) + C2).
  { intros idx. pose proof (Hvar idx). pose proof (Hsq (m idx)).
    unfold sq in *. lra. }
  rewrite elementwise_fdiv_of_reals.
  2: { apply Forall_map, Forall_forall. intros idx _. cbn.
       destruct (Hden idx). apply Rgt_not_eq. by apply Rmult_lt_0_compat. }
  step_bind.
  rewrite zip_with_map_same.
  assert (Hinner : inner <> []).
  { intros Hnil. apply (f_equal length) in Hnil. unfold inner, slice_5_m5 in Hnil.
    rewrite length_indices, !length_seq in Hnil. simpl in Hnil. nia. }
  rewrite np_mean_of_reals.
  2: { intros Hnil. apply Hinner. by apply map_eq_nil in Hnil. }
  rewrite length_map.
  rewrite (map_ext _ (fun _ => 1)).
  - rewrite Rsum_const_one. do 2 f_equal. field.
    apply INR_length_pos in Hinner. lra.
  - intros idx. destruct (Hden idx). unfold sq in *. field. split; lra.
Qed.

(** C6.  For a 2-D image of at least 11 x 11 pixels [calculate_ssim(img, img)]
    is exactly 1.0 in real arithmetic: every entry of the SSIM map of an image
    with itself is one, and so is their mean. *)
Theorem calculate_ssim_identical (H W : nat) (xs : list R) :
  (11 <= H)%nat -> (11 <= W)%nat -> length xs = (H * W)%nat ->
  calculate_ssim (of_reals [H; W] xs) (of_reals [H; W] xs) = Returned (Num 1).
Proof.
  intros HH HW Hlen. unfold calculate_ssim.
  rewrite shape_eqb_refl. cbn [negb ndim of_reals shape length Nat.eqb].
  by apply ssim_identical.
Qed.

Lemma calculate_ssim_identical_witness :
  calculate_ssim (of_reals [11; 11]%nat (replicate 121 7))
                 (of_reals [11; 11]%nat (replicate 121 7))
  = Returned (Num 1).
Proof.
  apply (calculate_ssim_identical 11 11 (replicate 121 7)); [lia | lia | reflexivity].
Defined.

(** ** The loops of [spatial_correlation_heatmap] *)

Lemma setitem_in_range {A} (l : list A) (k : nat) (v : A) :
  (k < length l)%nat -> setitem l k v = Returned (<[k := v]> l).
Proof. intros Hk. unfold setitem. by destruct (Nat.ltb_spec k (length l)); [|lia]. Qed.

Lemma getitem_lookup {A} (l : list A) (k : nat) (x : A) :
  l !! k = Some x -> getitem l k = Returned x.
Proof. intros Hk. unfold getitem. by rewrite Hk. Qed.

Lemma for_each_Z_map {S} (body : S -> Z -> outcome S) (phi : nat -> Z)
    (l : list nat) (st : S) :
  for_each_Z body (map phi l) st = for_each (fun st k => body st (phi k)) l st.
Proof.
  revert st. induction l as [|k l IH]; intros st; [done|].
  cbn. destruct (body st (phi k)); cbn; auto.
Qed.

Lemma for_each_ext {S} (body1 body2 : S -> nat -> outcome S) (l : list nat) (st : S) :
  (forall st k, body1 st k = body2 st k) ->
  for_each body1 l st = for_each body2 l st.
Proof.
  intros Hb. revert st. induction l as [|k l IH]; intros st; [done|].
  cbn. rewrite Hb. destruct (body2 st k); cbn; auto.
Qed.

Lemma fill_row (g : nat -> npfloat) (i n : nat) :
  forall (a : nat) (h : list (list npfloat)) (row : list npfloat),
    h !! i = Some row -> (a + n <= length row)%nat ->
    for_each (fun h k => setitem2 h i k (g k)) (seq a n) h
    = Returned (<[i := take a row ++ map g (seq a n) ++ drop (a + n) row]> h).
Proof.
  induction n as [|n IH]; intros a h row Hrow Hlen.
  - cbn. rewrite Nat.add_0_r, take_drop. by rewrite list_insert_id.
  - cbn [seq for_each].
    assert (Hi : (i < length h)%nat) by (apply lookup_lt_is_Some; eauto).
    assert (Hstep : setitem2 h i a (g a) = Returned (<[i := <[a := g a]> row]> h)).
    { unfold setitem2. rewrite (getitem_lookup _ _ _ Hrow).
      step_bind.
      rewrite setitem_in_range by lia.
      step_bind.
      by rewrite setitem_in_range by lia. }
    rewrite Hstep. step_bind.
    rewrite (IH (S a) _ (<[a := g a]> row)).
    + rewrite list_insert_insert_eq. do 2 f_equal.
      assert (Ha : (<[a := g a]> row) !! a = Some (g a))
        by (apply list_lookup_insert_eq; lia).
      rewrite (take_S_r _ _ _ Ha), take_insert_ge by lia.
      rewrite drop_insert_lt by lia.
      rewrite <- app_assoc. cbn. do 3 f_equal. f_equal. lia.
    + by apply list_lookup_insert_eq.
    + rewrite length_insert. lia.
Qed.

Lemma fill_table (g : nat -> nat -> npfloat) (n m : nat) :
  forall (a : nat) (h : list (list npfloat)),
    Forall (fun r => length r = n) h -> (a + m <= length h)%nat ->
    for_each (fun h i => for_each (fun h k => setitem2 h i k (g i k)) (seq 0 n) h)
             (seq a m) h
    = Returned (take a h ++ map (fun i => map (g i) (seq 0 n)) (seq a m)
                  ++ drop (a + m) h).
Proof.
  induction m as [|m IH]; intros a h Hrows Hlen.
  - cbn. by rewrite Nat.add_0_r, take_drop.
  - cbn [seq for_each].
    destruct (lookup_lt_is_Some_2 h a ltac:(lia)) as [row Hrow].
    assert (Hn : length row = n).
    { by apply (Forall_lookup_1 _ _ _ _ Hrows Hrow). }
    rewrite (fill_row (g a) a n 0 h row Hrow) by lia.
    step_bind.
    rewrite take_0, (drop_ge row) by lia. rewrite app_nil_l, app_nil_r.
    set (new := map (g a) (seq 0 n)).
    rewrite IH.
    + f_equal.
      assert (Ha : (<[a := new]> h) !! a = Some new)
        by (apply list_lookup_insert_eq; lia).
      rewrite (take_S_r _ _ _ Ha), take_insert_ge by lia.
      rewrite drop_insert_lt by lia.
      rewrite <- app_assoc. cbn. do 3 f_equal. f_equal. lia.
    + apply Forall_insert; [done|]. unfold new. by rewrite length_map, length_seq.
    + rewrite length_insert. lia.
Qed.

Lemma spatial_correlation_heatmap_table (img : image) (md : nat) :
  spatial_correlation_heatmap img md
  = Returned
      (map (fun i => map (fun j => heatmap_entry img (Z.of_nat i - Z.of_nat md)
                                     (Z.of_nat j - Z.of_nat md))
                         (seq 0 (2 * md + 1)))
           (seq 0 (2 * md + 1))).
Proof.
  unfold spatial_correlation_heatmap, range_sym.
  set (size := (2 * md + 1)%nat).
  set (phi := fun k : nat => (Z.of_nat k - Z.of_nat md)%Z).
  rewrite for_each_Z_map.
  rewrite (for_each_ext _
    (fun h i => for_each (fun h k => setitem2 h i k (heatmap_entry img (phi i) (phi k)))
                  (seq 0 size) h)).
  - rewrite fill_table.
    + rewrite take_0, drop_ge, app_nil_r by (rewrite length_replicate; lia). done.
    + apply Forall_replicate. by rewrite length_replicate.
    + rewrite length_replicate. lia.
  - intros h i. rewrite for_each_Z_map. apply for_each_ext. intros h' k.
    unfold heatmap_entry, phi.
    replace (Z.to_nat (Z.of_nat i - Z.of_nat md + Z.of_nat md)) with i by lia.
    replace (Z.to_nat (Z.of_nat k - Z.of_nat md + Z.of_nat md)) with k by lia.
    by destruct ((Z.of_nat i - Z.of_nat md =? 0) && (Z.of_nat k - Z.of_nat md =? 0))%Z.
Qed.

Lemma heatmap_table_at (img : image) (md : nat) (dx dy : Z) :
  (- Z.of_nat md <= dx <= Z.of_nat md)%Z ->
  (- Z.of_nat md <= dy <= Z.of_nat md)%Z ->
  at2 (map (fun i => map (fun j => heatmap_entry img (Z.of_nat i - Z.of_nat md)
                                     (Z.of_nat j - Z.of_nat md))
                         (seq 0 (2 * md + 1)))
           (seq 0 (2 * md + 1)))
      (Z.to_nat (Z.of_nat md + dx)) (Z.to_nat (Z.of_nat md + dy))
  = Some (heatmap_entry img dx dy).
Proof.
  intros Hdx Hdy. unfold at2.
  assert (Hl : forall {A} (f : nat -> A) (n k : nat),
             (k < n)%nat -> map f (seq 0 n) !! k = Some (f k)).
  { intros A f n k Hk. change (map f (seq 0 n)) with (f <$> seq 0 n).
    rewrite list_lookup_fmap, lookup_seq_lt by done. done. }
  rewrite Hl by lia. rewrite Hl by lia. do 2 f_equal; lia.
Qed.

(** ** Cyclic shifts *)




Lemma roll1_shift_bound {A} (s : Z) (l : list A) :
  l <> [] -> (Z.to_nat ((- s) mod Z.of_nat (length l)) < length l)%nat.
Proof.
  intros Hne. assert (0 < length l)%nat by (destruct l; [done|simpl; lia]).
  pose proof (Z.mod_pos_bound (- s) (Z.of_nat (length l)) ltac:(lia)). lia.
Qed.





(** ** [corr] on real vectors *)






(** ** Shifted images *)


























(** ** [relative_distance_correlation] *)

Lemma fold_left_append {A B} (F : B -> list A) (l : list B) (acc : list A) :
  fold_left (fun acc x => acc ++ F x) l acc = acc ++ flat_map F l.
Proof.
  revert acc. induction l as [|x l IH]; intros acc; cbn; [by rewrite app_nil_r|].
  by rewrite IH, app_assoc.
Qed.

Lemma fold_left_ext {A B} (f g : A -> B -> A) (l : list B) (acc : A) :
  (forall a x, f a x = g a x) -> fold_left f l acc = fold_left g l acc.
Proof.
  intros Hfg. revert acc. induction l as [|x l IH]; intros acc; cbn; [done|].
  by rewrite Hfg, IH.
Qed.

Lemma flat_map_list_prod {A B C} (f : A * B -> C) (l : list A) (k : list B) :
  flat_map (fun x => map (fun y => f (x, y)) k) l = map f (list_prod l k).
Proof.
  induction l as [|x l IH]; cbn; [done|].
  by rewrite map_app, map_map, IH.
Qed.

Lemma flat_map_singleton {A B} (f : A -> B) (l : list A) :
  flat_map (fun x => [f x]) l = map f l.
Proof. induction l as [|x l IH]; cbn; [done|]. by rewrite IH. Qed.

Lemma compute_correlation_for_distance_spec (img : image) (d : nat) :
  compute_correlation_for_distance img d = distance_scalar img d.
Proof.
  unfold compute_correlation_for_distance, distance_scalar, for_range, offsets.
  f_equal.
  rewrite (fold_left_ext _
    (fun acc dx => acc ++ map (fun dy => offset_correlation img (dx, dy))
                            (seq 0 (d + 1)))).
  - rewrite fold_left_append. cbn [app].
    apply (flat_map_list_prod (offset_correlation img)).
  - intros acc dx.
    rewrite (fold_left_ext _ (fun acc dy => acc ++ [offset_correlation img (dx, dy)])).
    + by rewrite fold_left_append, flat_map_singleton.
    + intros acc' dy. unfold offset_correlation.
      by destruct ((dx =? 0)%nat && (dy =? 0)%nat).
Qed.






(** ** The SNR evaluation cell *)

Lemma calculate_snr_returns (fs : disk) (sh : list nat) (l : list string)
    (i : nat) (a b : string) :
  frames_on_disk fs sh l -> l !! i = Some a -> l !! (i + 1)%nat = Some b ->
  exists o, calculate_snr fs a b = (o, Returned (pair_value fs l i)).
Proof.
  intros Hl Ha Hb. unfold pair_value. rewrite Ha, Hb.
  unfold frames_on_disk in Hl.
  destruct (Forall_lookup_1 _ _ _ _ Hl Ha) as (img1 & H1 & Hs1).
  destruct (Forall_lookup_1 _ _ _ _ Hl Hb) as (img2 & H2 & Hs2).
  unfold calculate_snr. rewrite H1, H2.
  unfold correlation_r, elementwise. cbn [amap shape].
  rewrite Hs1, Hs2, shape_eqb_refl. cbn. eauto.
Qed.


Section evaluation_loop.
Variables (fs : disk) (sh sh' : list nat).
Variables (noisy_list denoised_list : list string).
Hypothesis noisy_frames : frames_on_disk fs sh noisy_list.
Hypothesis denoised_frames : frames_on_disk fs sh' denoised_list.


End evaluation_loop.




(** * Further properties of the metrics *)

(** ** [calculate_psnr] *)

Lemma fsquare_fsub_comm (x y : npfloat) : fsquare (fsub x y) = fsquare (fsub y x).
Proof.
  destruct x, y; cbn; try done. f_equal. ring.
Qed.

Lemma sq_diff_data_comm (xs ys : list npfloat) :
  map fsquare (zip_with_f fsub xs ys) = map fsquare (zip_with_f fsub ys xs).
Proof.
  revert ys. induction xs as [|x xs IH]; intros [|y ys]; cbn; try done.
  by rewrite fsquare_fsub_comm, IH.
Qed.

(** X1.  [calculate_psnr] does not depend on the order of its two
    arguments, whatever the arrays hold. *)
Theorem calculate_psnr_symmetric (img1 img2 : ndarray) :
  calculate_psnr img1 img2 = calculate_psnr img2 img1.
Proof.
  unfold calculate_psnr, elementwise.
  rewrite (shape_eqb_sym (shape img2)).
  destruct (shape_eqb (shape img1) (shape img2)); [|done].
  step_bind. unfold np_mean, amap. cbn [data].
  by rewrite sq_diff_data_comm.
Qed.

Lemma calculate_psnr_run (sh : list nat) (xs ys : list R) :
  length xs = length ys -> xs <> [] -> MSE xs ys <> 0 ->
  calculate_psnr (of_reals sh xs) (of_reals sh ys)
  = Returned (Num (20 * log10 (255 / sqrt (MSE xs ys)))).
Proof.
  intros Hlen Hne Hnz. unfold calculate_psnr.
  rewrite (elementwise_of_reals fsub Rminus) by done. step_bind.
  rewrite (amap_of_reals fsquare (fun d => d * d)) by done.
  pose proof (sq_diffs_nonempty xs ys Hlen Hne) as Hd.
  rewrite np_mean_of_reals by (by rewrite sq_diffs_alt).
  rewrite sq_diffs_alt. fold (MSE xs ys).
  pose proof (MSE_nonneg xs ys Hd) as Hge.
  assert (Hs : 0 < sqrt (MSE xs ys)) by (apply sqrt_lt_R0; lra).
  assert (Hq : 0 < 255 / sqrt (MSE xs ys)) by (apply Rdiv_lt_0_compat; lra).
  unfold feq0. destruct (Req_EM_T (MSE xs ys) 0) as [|_]; [done|].
  unfold math_sqrt. destruct (Rlt_dec (MSE xs ys) 0) as [|_]; [lra|]. step_bind.
  unfold py_div, feq0. destruct (Req_EM_T (sqrt (MSE xs ys)) 0) as [|_]; [lra|].
  step_bind. rewrite fdiv_Num by lra.
  unfold math_log10. destruct (Rle_dec (255 / sqrt (MSE xs ys)) 0) as [|_]; [lra|].
  done.
Qed.






(** X3.  Two arrays of one shape without elements: the mean is NaN, the
    test [mse == 0] fails, and NaN is returned; no infinity, no exception. *)
Theorem calculate_psnr_empty (sh : list nat) :
  calculate_psnr (mk_ndarray sh []) (mk_ndarray sh []) = Returned NaN.
Proof.
  unfold calculate_psnr, elementwise. cbn [shape data].
  rewrite shape_eqb_refl. step_bind. unfold np_mean, amap, fmean. cbn.
  by destruct (Req_EM_T 0 0) as [_|Hc]; [|lra].
Qed.

(** X4.  An image and the same image with every intensity moved by
    [delta <> 0]: the PSNR is [20 log10 (255 / |delta|)]. *)
Theorem calculate_psnr_offset (sh : list nat) (xs : list R) (delta : R) :
  xs <> [] -> delta <> 0 ->
  calculate_psnr (of_reals sh xs) (of_reals sh (map (fun x => x + delta) xs))
  = Returned (Num (20 * log10 (255 / Rabs delta))).
Proof.
  intros Hne Hd.
  assert (Hm : MSE xs (map (fun x => x + delta) xs) = delta * delta).
  { unfold MSE.
    assert (Hs : sq_diffs xs (map (fun x => x + delta) xs)
                 = map (fun _ => delta * delta) xs).
    { unfold sq_diffs. clear. induction xs as [|x xs IH]; cbn; [done|].
      rewrite IH. f_equal. ring. }
    rewrite Hs, length_map.
    assert (Hc : Rsum (map (fun _ : R => delta * delta) xs)
                 = INR (length xs) * (delta * delta)).
    { clear. induction xs as [|x xs IH]; [cbn; lra|].
      cbn [map length]. rewrite Rsum_cons, IH, S_INR. lra. }
    rewrite Hc. field. apply INR_length_pos in Hne. lra. }
  assert (Hpos : 0 < delta * delta).
  { pose proof (Rle_0_sqr delta) as H. unfold Rsqr in H.
    destruct (Rle_lt_or_eq_dec _ _ H) as [|He]; [done|].
    symmetry in He. apply Rmult_integral in He. lra. }
  rewrite calculate_psnr_run by (rewrite ?length_map, ?Hm; done || lra).
  rewrite Hm. change (delta * delta) with (Rsqr delta). by rewrite sqrt_Rsqr_abs.
Qed.

Lemma calculate_psnr_offset_witness :
  calculate_psnr (of_reals [1; 2]%nat [10; 20])
                 (of_reals [1; 2]%nat (map (fun x => x + 5) [10; 20]))
  = Returned (Num (20 * log10 (255 / Rabs 5))).
Proof.
  apply (calculate_psnr_offset [1; 2]%nat [10; 20] 5); [done|lra].
Defined.

(** ** [ssim] on two real images *)

Lemma Rsum_map_plus {A} (f g : A -> R) (l : list A) :
  Rsum (map (fun t => f t + g t) l) = Rsum (map f l) + Rsum (map g l).
Proof.
  induction l as [|t l IH]; [cbn; lra|].
  cbn [map]. rewrite !Rsum_cons, IH. lra.
Qed.

Lemma Rsum_map_scale {A} (a : R) (f : A -> R) (l : list A) :
  Rsum (map (fun t => a * f t) l) = a * Rsum (map f l).
Proof.
  induction l as [|t l IH]; [cbn; lra|].
  cbn [map]. rewrite !Rsum_cons, IH. lra.
Qed.

Lemma nth_zip_with_mult (k : nat) (xs ys : list R) :
  length xs = length ys ->
  nth k (zip_with Rmult xs ys) 0 = nth k xs 0 * nth k ys 0.
Proof.
  revert k ys. induction xs as [|x xs IH]; intros [|k] [|y ys] Hlen;
    cbn in *; try lia; try lra.
  apply IH. lia.
Qed.

Lemma nth_map_sq (k : nat) (xs : list R) :
  nth k (map (fun d => d * d) xs) 0 = nth k xs 0 * nth k xs 0.
Proof.
  revert k. induction xs as [|x xs IH]; intros [|k]; cbn; try lra. apply IH.
Qed.

Lemma weighted_diff_sums {A} (w p q : A -> R) (l : list A) :
  Rsum (map (fun t => w t * (p t - q t)) l)
  = Rsum (map (fun t => w t * p t) l) - Rsum (map (fun t => w t * q t) l)
  /\ Rsum (map (fun t => w t * ((p t - q t) * (p t - q t))) l)
     = Rsum (map (fun t => w t * (p t * p t)) l)
       - 2 * Rsum (map (fun t => w t * (p t * q t)) l)
       + Rsum (map (fun t => w t * (q t * q t)) l)
  /\ Rsum (map (fun t => w t * (p t + q t)) l)
     = Rsum (map (fun t => w t * p t) l) + Rsum (map (fun t => w t * q t) l)
  /\ Rsum (map (fun t => w t * ((p t + q t) * (p t + q t))) l)
     = Rsum (map (fun t => w t * (p t * p t)) l)
       + 2 * Rsum (map (fun t => w t * (p t * q t)) l)
       + Rsum (map (fun t => w t * (q t * q t)) l).
Proof.
  induction l as [|t l (IH1 & IH2 & IH3 & IH4)]; [cbn; lra|].
  cbn [map]. rewrite !Rsum_cons, IH1, IH2, IH3, IH4. lra.
Qed.

Lemma filter_real_stats (H W : nat) (xs ys : list R) (tp : list (R * Z * Z))
    (idx : nat * nat * nat) :
  Forall (fun t : R * Z * Z => 0 <= t.1.1) tp ->
  Rsum (map (fun t : R * Z * Z => t.1.1) tp) = 1 ->
  length xs = length ys ->
  local_stats_ok (filter_real H W 1 xs tp idx) (filter_real H W 1 ys tp idx)
    (filter_real H W 1 (map (fun d => d * d) xs) tp idx)
    (filter_real H W 1 (map (fun d => d * d) ys) tp idx)
    (filter_real H W 1 (zip_with Rmult xs ys) tp idx).
Proof.
  intros Hw Hone Hlen. unfold filter_real.
  set (w := fun t : R * Z * Z => t.1.1).
  set (p := fun t : R * Z * Z => nth (flat_index W 1 (tap_index H W 1 idx t)) xs 0).
  set (q := fun t : R * Z * Z => nth (flat_index W 1 (tap_index H W 1 idx t)) ys 0).
  rewrite (map_ext (fun t : R * Z * Z => t.1.1 * nth _ (map _ xs) 0)
                   (fun t => w t * (p t * p t)))
    by (intros t; unfold w, p; by rewrite nth_map_sq).
  rewrite (map_ext (fun t : R * Z * Z => t.1.1 * nth _ (map _ ys) 0)
                   (fun t => w t * (q t * q t)))
    by (intros t; unfold w, q; by rewrite nth_map_sq).
  rewrite (map_ext (fun t : R * Z * Z => t.1.1 * nth _ (zip_with Rmult xs ys) 0)
                   (fun t => w t * (p t * q t)))
    by (intros t; unfold w, p, q; by rewrite nth_zip_with_mult).
  change (map (fun t : R * Z * Z => t.1.1 * nth (flat_index W 1 (tap_index H W 1 idx t)) xs 0) tp)
    with (map (fun t => w t * p t) tp).
  change (map (fun t : R * Z * Z => t.1.1 * nth (flat_index W 1 (tap_index H W 1 idx t)) ys 0) tp)
    with (map (fun t => w t * q t) tp).
  destruct (weighted_diff_sums w p q tp) as (D1 & D2 & S1 & S2).
  pose proof (weighted_jensen w p tp Hw Hone) as J1.
  pose proof (weighted_jensen w q tp Hw Hone) as J2.
  pose proof (weighted_jensen w (fun t => p t - q t) tp Hw Hone) as J3.
  pose proof (weighted_jensen w (fun t => p t + q t) tp Hw Hone) as J4.
  cbv beta in J3, J4. rewrite D1, D2 in J3. rewrite S1, S2 in J4.
  unfold local_stats_ok. repeat split; lra.
Qed.

Lemma nth_map_pointwise5 {A} (P : R -> R -> R -> R -> R -> Prop)
    (f1 f2 f3 f4 f5 : A -> R) (l : list A) (k : nat) :
  P 0 0 0 0 0 ->
  (forall x, P (f1 x) (f2 x) (f3 x) (f4 x) (f5 x)) ->
  P (nth k (map f1 l) 0) (nth k (map f2 l) 0) (nth k (map f3 l) 0)
    (nth k (map f4 l) 0) (nth k (map f5 l) 0).
Proof.
  intros H0 Hf. revert k. induction l as [|x l IH]; intros [|k]; cbn; auto.
Qed.

Lemma local_stat_ok (H W : nat) (xs ys : list R) (idx : nat * nat * nat) :
  length xs = length ys ->
  local_stats_ok (local_stat H W xs idx) (local_stat H W ys idx)
    (local_stat H W (map (fun d => d * d) xs) idx)
    (local_stat H W (map (fun d => d * d) ys) idx)
    (local_stat H W (zip_with Rmult xs ys) idx).
Proof.
  intros Hlen. unfold local_stat.
  destruct ssim_window_weights as [Hw Hone].
  apply (nth_map_pointwise5 local_stats_ok).
  - unfold local_stats_ok. lra.
  - intros x. by apply filter_real_stats.
Qed.

Lemma ssim_formula_denominator (m1 m2 e11 e22 e12 : R) :
  local_stats_ok m1 m2 e11 e22 e12 ->
  0 < m1 * m1 + m2 * m2 + C1 /\ 0 < e11 - m1 * m1 + (e22 - m2 * m2) + C2.
Proof.
  intros (H1 & H2 & _).
  assert (HC1 : 0 < C1) by (unfold C1; apply Rmult_lt_0_compat; lra).
  assert (HC2 : 0 < C2) by (unfold C2; apply Rmult_lt_0_compat; lra).
  pose proof (Rle_0_sqr m1) as S1. pose proof (Rle_0_sqr m2) as S2.
  unfold Rsqr in *. lra.
Qed.

Lemma ssim_of_reals (H W : nat) (xs ys : list R) :
  (0 < H)%nat -> (0 < W)%nat ->
  length xs = (H * W)%nat -> length ys = (H * W)%nat ->
  ssim (of_reals [H; W] xs) (of_reals [H; W] ys)
  = Returned (fmean (map Num (ssim_map_real H W xs ys))).
Proof.
  intros HH HW Hx Hy. unfold ssim. fold ssim_taps.
  set (sq := fun d : R => d * d).
  set (all := indices (seq 0 H) (seq 0 W) 1).
  set (inner := indices (slice_5_m5 H) (slice_5_m5 W) 1).
  rewrite !(amap_of_reals fsquare sq) by done.
  rewrite (elementwise_of_reals fmul Rmult [H; W] xs ys) by done.
  repeat first
    [ rewrite filter2D_of_reals
        by (rewrite ?length_map, ?length_zip_with; lia)
    | rewrite crop_of_reals by apply length_filtered
    | progress step_bind ].
  fold ssim_taps. fold all.
  rewrite (amap_of_reals fsquare sq) by done.
  rewrite (amap_of_reals fsquare sq) by done.
  rewrite (elementwise_of_reals fmul Rmult) by done. step_bind.
  rewrite !(elementwise_of_reals fsub Rminus) by done. step_bind.
  rewrite (amap_of_reals (fun v => fadd (fmul (Num 2) v) (Num C1))
             (fun v => 2 * v + C1)) by done.
  rewrite (amap_of_reals (fun v => fadd (fmul (Num 2) v) (Num C2))
             (fun v => 2 * v + C2)) by done.
  rewrite (elementwise_of_reals fmul Rmult) by done. step_bind.
  rewrite !(elementwise_of_reals fadd Rplus) by done. step_bind.
  rewrite (amap_of_reals (fun v => fadd v (Num C1)) (fun v => v + C1)) by done.
  rewrite (amap_of_reals (fun v => fadd v (Num C2)) (fun v => v + C2)) by done.
  rewrite (elementwise_of_reals fmul Rmult) by done. step_bind.
  unfold crop_real. fold inner.
  repeat rewrite ?map_map, ?zip_with_map_same.
  fold (local_stat H W xs) (local_stat H W ys) (local_stat H W (map sq xs))
       (local_stat H W (map sq ys)) (local_stat H W (zip_with Rmult xs ys)).
  assert (Hok : forall idx,
    0 < sq (local_stat H W xs idx) + sq (local_stat H W ys idx) + C1
    /\ 0 < local_stat H W (map sq xs) idx - sq (local_stat H W xs idx)
           + (local_stat H W (map sq ys) idx - sq (local_stat H W ys idx)) + C2).
  { intros idx. apply (ssim_formula_denominator _ _ _ _
                         (local_stat H W (zip_with Rmult xs ys) idx)).
    apply local_stat_ok. lia. }
  rewrite elementwise_fdiv_of_reals.
  2: { apply Forall_map, Forall_forall. intros idx _. cbn.
       destruct (Hok idx). apply Rgt_not_eq. by apply Rmult_lt_0_compat. }
  step_bind. rewrite zip_with_map_same. unfold np_mean, of_reals. cbn [data].
  done.
Qed.

Lemma calculate_ssim_2d (H W : nat) (d1 d2 : list npfloat) :
  calculate_ssim (mk_ndarray [H; W] d1) (mk_ndarray [H; W] d2)
  = ssim (mk_ndarray [H; W] d1) (mk_ndarray [H; W] d2).
Proof. unfold calculate_ssim. cbn [shape]. by rewrite shape_eqb_refl. Qed.






Lemma ratio_product_bounded (n1 d1 n2 d2 : R) :
  0 < d1 -> 0 < d2 -> - d1 <= n1 <= d1 -> - d2 <= n2 <= d2 ->
  -1 <= (n1 * n2) / (d1 * d2) <= 1.
Proof.
  intros Hd1 Hd2 [L1 U1] [L2 U2].
  assert (Hd : 0 < d1 * d2) by (by apply Rmult_lt_0_compat).
  assert (A1 : 0 <= (d1 - n1) * (d2 + n2)) by (apply Rmult_le_pos; lra).
  assert (A2 : 0 <= (d1 + n1) * (d2 - n2)) by (apply Rmult_le_pos; lra).
  assert (A3 : 0 <= (d1 - n1) * (d2 - n2)) by (apply Rmult_le_pos; lra).
  assert (A4 : 0 <= (d1 + n1) * (d2 + n2)) by (apply Rmult_le_pos; lra).
  assert (Hi : 0 < / (d1 * d2)) by (by apply Rinv_0_lt_compat).
  unfold Rdiv. split.
  - apply Rmult_le_reg_r with (d1 * d2); [done|].
    rewrite Rmult_assoc, Rinv_l by lra. lra.
  - apply Rmult_le_reg_r with (d1 * d2); [done|].
    rewrite Rmult_assoc, Rinv_l by lra. lra.
Qed.

Lemma ssim_formula_bounded (m1 m2 e11 e22 e12 : R) :
  local_stats_ok m1 m2 e11 e22 e12 ->
  -1 <= ssim_formula m1 m2 e11 e22 e12 <= 1.
Proof.
  intros Hok. destruct (ssim_formula_denominator _ _ _ _ _ Hok) as [D1 D2].
  destruct Hok as (H1 & H2 & H3 & H4).
  assert (HC1 : 0 < C1) by (unfold C1; apply Rmult_lt_0_compat; lra).
  assert (HC2 : 0 < C2) by (unfold C2; apply Rmult_lt_0_compat; lra).
  pose proof (Rle_0_sqr (m1 - m2)) as S1. pose proof (Rle_0_sqr (m1 + m2)) as S2.
  unfold Rsqr in S1, S2.
  unfold ssim_formula. apply ratio_product_bounded; try done; split; lra.
Qed.

Lemma Rsum_bounded (l : list R) :
  Forall (fun v => -1 <= v <= 1) l ->
  - INR (length l) <= Rsum l <= INR (length l).
Proof.
  induction 1 as [|v l Hv Hl IH]; [cbn; lra|].
  rewrite Rsum_cons. cbn [length]. rewrite S_INR. lra.
Qed.

Lemma fmean_bounded (l : list R) :
  l <> [] -> Forall (fun v => -1 <= v <= 1) l ->
  exists v, fmean (map Num l) = Num v /\ -1 <= v <= 1.
Proof.
  intros Hne Hl. rewrite fmean_Num by done. eexists. split; [done|].
  pose proof (Rsum_bounded l Hl) as [Lo Hi].
  pose proof (INR_length_pos l Hne) as Hn.
  assert (Hin : 0 < / INR (length l)) by (by apply Rinv_0_lt_compat).
  unfold Rdiv. split.
  - apply Rmult_le_reg_r with (INR (length l)); [done|].
    rewrite Rmult_assoc, Rinv_l by lra. lra.
  - apply Rmult_le_reg_r with (INR (length l)); [done|].
    rewrite Rmult_assoc, Rinv_l by lra. lra.
Qed.

(** X6.  For two real 2-D images of one shape, at least 11 x 11, the value
    of [calculate_ssim] is a number between -1 and 1. *)
Theorem calculate_ssim_bounded (H W : nat) (xs ys : list R) :
  (11 <= H)%nat -> (11 <= W)%nat ->
  length xs = (H * W)%nat -> length ys = (H * W)%nat ->
  exists v,
    calculate_ssim (of_reals [H; W] xs) (of_reals [H; W] ys) = Returned (Num v)
    /\ -1 <= v <= 1.
Proof.
  intros HH HW Hx Hy. unfold of_reals at 1 2. rewrite calculate_ssim_2d.
  fold (of_reals [H; W] xs) (of_reals [H; W] ys).
  rewrite ssim_of_reals by (done || lia).
  destruct (fmean_bounded (ssim_map_real H W xs ys)) as (v & Hv & Hb).
  - unfold ssim_map_real. intros Hnil. apply map_eq_nil in Hnil.
    apply (f_equal length) in Hnil. unfold slice_5_m5 in Hnil.
    rewrite length_indices, !length_seq in Hnil. simpl in Hnil. nia.
  - unfold ssim_map_real. apply Forall_map, Forall_forall. intros idx _.
    apply ssim_formula_bounded, local_stat_ok. lia.
  - exists v. by rewrite Hv.
Qed.

Lemma calculate_ssim_bounded_witness :
  exists v,
    calculate_ssim (of_reals [11; 11]%nat (replicate 121 7))
                   (of_reals [11; 11]%nat (replicate 121 9))
    = Returned (Num v)
    /\ -1 <= v <= 1.
Proof.
  apply (calculate_ssim_bounded 11 11 (replicate 121 7) (replicate 121 9));
    [lia | lia | reflexivity | reflexivity].
Defined.

(** X7.  A real 2-D image with a side shorter than the window, 11: the
    border trim leaves nothing, and [calculate_ssim] returns NaN, the mean of
    no values; it raises nothing. *)
Theorem calculate_ssim_small_image (H W : nat) (xs ys : list R) :
  (0 < H)%nat -> (0 < W)%nat -> (H < 11 \/ W < 11)%nat ->
  length xs = (H * W)%nat -> length ys = (H * W)%nat ->
  calculate_ssim (of_reals [H; W] xs) (of_reals [H; W] ys) = Returned NaN.
Proof.
  intros HH HW Hsmall Hx Hy. unfold of_reals at 1 2. rewrite calculate_ssim_2d.
  fold (of_reals [H; W] xs) (of_reals [H; W] ys).
  rewrite ssim_of_reals by done.
  assert (Hnil : ssim_map_real H W xs ys = []).
  { unfold ssim_map_real.
    assert (Hi : indices (slice_5_m5 H) (slice_5_m5 W) 1 = []).
    { apply length_zero_iff_nil. unfold slice_5_m5.
      rewrite length_indices, !length_seq. nia. }
    by rewrite Hi. }
  rewrite Hnil. unfold fmean. cbn.
  by destruct (Req_EM_T 0 0) as [_|Hc]; [|lra].
Qed.

Lemma calculate_ssim_small_image_witness :
  calculate_ssim (of_reals [2; 2]%nat [1; 2; 3; 4]) (of_reals [2; 2]%nat [1; 2; 3; 4])
  = Returned NaN.
Proof.
  apply (calculate_ssim_small_image 2 2 [1; 2; 3; 4] [1; 2; 3; 4]);
    [lia | lia | left; lia | reflexivity | reflexivity].
Defined.

(** ** What [calculate_ssim] raises *)

Lemma shape_eqb_eq (s t : list nat) : shape_eqb s t = true <-> s = t.
Proof.
  split; [|intros ->; apply shape_eqb_refl].
  revert t. induction s as [|m s IH]; intros [|n t]; cbn; try done.
  intros [Hmn Hst]%andb_true_iff. apply Nat.eqb_eq in Hmn. f_equal; auto.
Qed.









(** * Further properties of [calculate_snr] *)





















(** * Further properties of the SNR evaluation cell *)

Lemma fmean_nil : fmean [] = NaN.
Proof. unfold fmean. cbn. by destruct (Req_EM_T 0 0) as [_|Hc]; [|lra]. Qed.


(** X14.  With no noisy frame the arrays have one entry: the mean is written
    to entry 0, the write of the standard deviation to entry 1 raises
    IndexError, and no file is written. *)
Theorem snr_evaluation_no_frames (fs : disk) (snr_dir : string)
    (denoised_list : list string) :
  snr_evaluation fs snr_dir [] denoised_list = Raised "IndexError".
Proof. reflexivity. Qed.


Lemma snr_loop_body_short (fs : disk) (sh : list nat)
    (noisy_list denoised_list : list string) (st : eval_state) :
  (2 <= length noisy_list)%nat ->
  frames_on_disk fs sh noisy_list ->
  (length denoised_list < 2)%nat ->
  (2 < length (snr_noisy st))%nat ->
  snr_loop_body fs noisy_list denoised_list st 0 = Raised "IndexError".
Proof.
  intros HN Hn Hd Hst. unfold snr_loop_body.
  destruct (lookup_lt_is_Some_2 noisy_list 0 ltac:(lia)) as [a Ha].
  destruct (lookup_lt_is_Some_2 noisy_list (0 + 1) ltac:(lia)) as [b Hb].
  rewrite (getitem_lookup _ _ _ Ha), (getitem_lookup _ _ _ Hb). step_bind.
  destruct (calculate_snr_returns fs sh noisy_list 0 a b Hn Ha Hb) as [o ->].
  step_bind. rewrite setitem_in_range by (cbn; lia). step_bind.
  destruct denoised_list as [|c [|d rest]]; cbn [length] in Hd; try lia; done.
Qed.

(** X16.  With two or more noisy frames on the disk and fewer than two
    denoised frames, the first iteration fails on [denoised_list]: the cell
    raises IndexError and writes no file. *)
Theorem snr_evaluation_short_denoised (fs : disk) (snr_dir : string)
    (sh : list nat) (noisy_list denoised_list : list string) :
  (2 <= length noisy_list)%nat ->
  frames_on_disk fs sh noisy_list ->
  (length denoised_list < 2)%nat ->
  snr_evaluation fs snr_dir noisy_list denoised_list = Raised "IndexError".
Proof.
  intros HN Hn Hd. unfold snr_evaluation.
  destruct (length noisy_list) as [|[|n]] eqn:HNl; try lia.
  replace (S (S n) - 1)%nat with (S n) by lia.
  cbn [seq for_each].
  rewrite (snr_loop_body_short fs sh) by (cbn [snr_noisy]; rewrite ?length_replicate; lia || done).
  done.
Qed.

Lemma snr_evaluation_short_denoised_witness :
  snr_evaluation two_frame_disk "out" ["a.tif"; "b.tif"] ["a.tif"]
  = Raised "IndexError".
Proof.
  apply (snr_evaluation_short_denoised two_frame_disk "out" [1; 2]%nat).
  - cbn. lia.
  - repeat constructor; eexists; split; reflexivity.
  - cbn. lia.
Defined.

(** * The normalization to [0, 255] *)





Lemma fold_min_Num (xs : list R) (x : R) :
  fold_left fmin2 (map Num xs) (Num x) = Num (fold_left Rmin xs x).
Proof. revert x. induction xs as [|y xs IH]; intros x; cbn; [done|]. apply IH. Qed.

Lemma fold_max_Num (xs : list R) (x : R) :
  fold_left fmax2 (map Num xs) (Num x) = Num (fold_left Rmax xs x).
Proof. revert x. induction xs as [|y xs IH]; intros x; cbn; [done|]. apply IH. Qed.



Lemma np_min_of_reals (sh : list nat) (x : R) (xs : list R) :
  np_min (of_reals sh (x :: xs)) = Returned (Num (fold_left Rmin xs x)).
Proof. unfold np_min, of_reals. cbn [data map]. by rewrite fold_min_Num. Qed.

Lemma np_max_of_reals (sh : list nat) (x : R) (xs : list R) :
  np_max (of_reals sh (x :: xs)) = Returned (Num (fold_left Rmax xs x)).
Proof. unfold np_max, of_reals. cbn [data map]. by rewrite fold_max_Num. Qed.



(** X18.  An image whose pixels all have one value has [max = min]: the
    quotient is [0/0] and every pixel of the result is NaN.  An image without
    pixels has no minimum: ValueError. *)
Theorem normalize_255_constant (sh : list nat) (c : R) (n : nat) :
  normalize_255 (of_reals sh (replicate (S n) c))
  = Returned (mk_ndarray sh (replicate (S n) NaN))
  /\ normalize_255 (of_reals sh []) = Raised "ValueError".
Proof.
  split; [|done].
  assert (Hmin : forall k, fold_left Rmin (replicate k c) c = c).
  { induction k as [|k IH]; cbn; [done|].
    unfold Rmin at 2. destruct (Rle_dec c c); exact IH. }
  assert (Hmax : forall k, fold_left Rmax (replicate k c) c = c).
  { induction k as [|k IH]; cbn; [done|].
    unfold Rmax at 2. destruct (Rle_dec c c); exact IH. }
  unfold normalize_255. cbn [replicate].
  rewrite np_min_of_reals, np_max_of_reals, Hmin, Hmax. step_bind.
  unfold amap, of_reals. cbn [shape data map]. do 2 f_equal.
  assert (Hpix : np_round (fdiv (fmul (fsub (Num c) (Num c)) (Num 255))
                             (fsub (Num c) (Num c))) = NaN).
  { cbn. destruct (Req_EM_T (c + - c) 0) as [_|Hc]; [|lra].
    destruct (Req_EM_T ((c + - c) * 255) 0) as [_|Hc]; [done|lra]. }
  rewrite Hpix. f_equal. clear Hmin Hmax.
  induction n as [|n IH]; [done|].
  cbn [replicate map]. by rewrite Hpix, IH.
Qed.

(** * Further properties of the noise-statistics notebook *)

(** ** [numpy_normalize_zscore_normalize] *)








(** ** [spatial_correlation_heatmap] *)

(** X21.  For every image, also a ragged one or one with special values,
    and every [max_distance], the loops raise no IndexError and write every
    cell: the result has [2 max_distance + 1] rows of that length, 1.0 at the
    centre and at [max_distance + dx, max_distance + dy] the correlation of
    the image with its shift by [(dx, dy)]. *)
Theorem spatial_correlation_heatmap_total (img : image) (md : nat) :
  exists h,
    spatial_correlation_heatmap img md = Returned h
    /\ length h = (2 * md + 1)%nat
    /\ Forall (fun row => length row = (2 * md + 1)%nat) h
    /\ at2 h md md = Some (Num 1)
    /\ forall dx dy : Z,
         (- Z.of_nat md <= dx <= Z.of_nat md)%Z ->
         (- Z.of_nat md <= dy <= Z.of_nat md)%Z ->
         (dx, dy) <> (0, 0)%Z ->
         at2 h (Z.to_nat (Z.of_nat md + dx)) (Z.to_nat (Z.of_nat md + dy))
         = Some (corr (flatten img) (flatten (roll dx dy img))).
Proof.
  eexists. split; [apply spatial_correlation_heatmap_table|].
  split; [by rewrite length_map, length_seq|]. split; [|split].
  - apply Forall_map, Forall_forall. intros i _. cbn.
    by rewrite length_map, length_seq.
  - pose proof (heatmap_table_at img md 0 0 ltac:(lia) ltac:(lia)) as H0.
    rewrite Z.add_0_r, Nat2Z.id in H0. exact H0.
  - intros dx dy Hdx Hdy Hne. rewrite heatmap_table_at by done.
    unfold heatmap_entry.
    destruct (Z.eqb_spec dx 0) as [->|]; [|done].
    destruct (Z.eqb_spec dy 0) as [->|]; done.
Qed.







(** ** [relative_distance_correlation] *)

Lemma unit_or_nan_fclip1 (x : npfloat) : unit_or_nan (fclip1 x).
Proof.
  unfold unit_or_nan. destruct x as [a| | |]; cbn.
  - destruct (Rlt_dec a (-1)); [right; exists (-1); split; [done|lra]|].
    destruct (Rlt_dec 1 a); right; [exists 1|exists a]; split; try done; lra.
  - right. exists 1. split; [done|lra].
  - right. exists (-1). split; [done|lra].
  - by left.
Qed.

Lemma fsum_unit_or_nan (l : list npfloat) :
  Forall unit_or_nan l ->
  fsum l = NaN
  \/ exists s, fsum l = Num s /\ - INR (length l) <= s <= INR (length l).
Proof.
  induction 1 as [|v l Hv Hl IH].
  - right. exists 0. split; [done|]. cbn. lra.
  - change (fsum (v :: l)) with (fadd v (fsum l)). cbn [length]. rewrite S_INR.
    destruct Hv as [->|(r & -> & Hr)]; [by left|].
    destruct IH as [->|(s & -> & Hs)]; [by left|].
    right. exists (r + s). split; [done|lra].
Qed.

Lemma unit_or_nan_fmean (l : list npfloat) :
  Forall unit_or_nan l -> unit_or_nan (fmean l).
Proof.
  intros Hl. unfold fmean.
  destruct l as [|v l]; [left; apply fmean_nil|].
  assert (Hn : 0 < INR (length (v :: l))) by (by apply INR_length_pos).
  destruct (fsum_unit_or_nan _ Hl) as [->|(s & -> & Hs)]; [by left|].
  right. rewrite fdiv_Num by lra. eexists. split; [done|].
  assert (Hi : 0 < / INR (length (v :: l))) by (by apply Rinv_0_lt_compat).
  unfold Rdiv. split.
  - apply Rmult_le_reg_r with (INR (length (v :: l))); [done|].
    rewrite Rmult_assoc, Rinv_l by lra. lra.
  - apply Rmult_le_reg_r with (INR (length (v :: l))); [done|].
    rewrite Rmult_assoc, Rinv_l by lra. lra.
Qed.

(** X24.  Whatever the image, every scalar that
    [relative_distance_correlation] returns is NaN or a number between -1 and
    1: numpy clips each coefficient, and a mean of such values is one. *)
Theorem relative_distance_correlation_range (img : image) (max_distance : nat) :
  Forall unit_or_nan (relative_distance_correlation img max_distance).
Proof.
  unfold relative_distance_correlation.
  rewrite (fold_left_ext _ (fun acc d => acc ++ [distance_scalar img d])).
  2: { intros acc d. by rewrite compute_correlation_for_distance_spec. }
  rewrite fold_left_append, flat_map_singleton. cbn [app].
  apply Forall_map, Forall_forall. intros d _. cbn.
  unfold distance_scalar. apply unit_or_nan_fmean.
  apply Forall_map, Forall_forall. intros [dx dy] _. cbn.
  destruct ((dx =? 0)%nat && (dy =? 0)%nat).
  - right. exists 1. split; [done|lra].
  - apply unit_or_nan_fmean. apply Forall_map, Forall_forall. intros col _.
    cbn. unfold corrcoef01. apply unit_or_nan_fclip1.
Qed.

(** ** When [calculate_ssim] returns [None] *)

Lemma no_none_bind {A B} (m : outcome A) (k : A -> outcome B) :
  no_none m -> (forall x, m = Returned x -> no_none (k x)) -> no_none (m ≫= k).
Proof.
  unfold no_none. intros Hm Hk. destruct m as [x| |e|]; cbn; try done.
  by apply Hk.
Qed.

Lemma no_none_elementwise (f : npfloat -> npfloat -> npfloat) (a b : ndarray) :
  no_none (elementwise f a b).
Proof. unfold no_none, elementwise. by destruct (shape_eqb (shape a) (shape b)). Qed.

Lemma no_none_filter2D (a : ndarray) (window : list (list R)) :
  no_none (filter2D a window).
Proof. unfold no_none, filter2D. by destruct (image_view a) as [[[H W] C]|]. Qed.

Lemma no_none_crop (a : ndarray) : no_none (crop a).
Proof. unfold no_none, crop. by destruct (shape a) as [|H [|W rest]]. Qed.

Lemma no_none_ssim (img1 img2 : ndarray) : no_none (ssim img1 img2).
Proof.
  unfold ssim.
  repeat (apply no_none_bind;
          [ first [ apply no_none_elementwise
                  | apply no_none_filter2D
                  | apply no_none_crop ]
          | intros ? ? ]).
  done.
Qed.

(** X25.  [calculate_ssim] ends without a [return], giving [None], exactly
    when the two arrays have one shape with three axes and the third
    dimension is neither 3 nor 1. *)
Theorem calculate_ssim_none_iff (img1 img2 : ndarray) :
  calculate_ssim img1 img2 = ReturnedNone
  <-> shape img1 = shape img2 /\ ndim img1 = 3%nat
      /\ nth 2 (shape img1) 0%nat <> 3%nat /\ nth 2 (shape img1) 0%nat <> 1%nat.
Proof.
  split; [|intros (Hs & Hn & H3 & H1); by apply calculate_ssim_other_channels].
  unfold calculate_ssim.
  destruct (shape_eqb (shape img1) (shape img2)) eqn:Hs; cbn [negb]; [|done].
  apply shape_eqb_eq in Hs.
  destruct (Nat.eqb_spec (ndim img1) 2) as [H2|H2].
  { intros He. by apply no_none_ssim in He. }
  destruct (Nat.eqb_spec (ndim img1) 3) as [H3|H3]; [|done].
  destruct (Nat.eqb_spec (nth 2 (shape img1) 0%nat) 3) as [Hc3|Hc3].
  { cbn [append_times]. intros He. exfalso.
    pose proof (no_none_ssim img1 img2) as Hn. unfold no_none in Hn.
    by destruct (ssim img1 img2) as [v| |e'|]. }
  destruct (Nat.eqb_spec (nth 2 (shape img1) 0%nat) 1) as [Hc1|Hc1]; [|done].
  intros He. by apply no_none_ssim in He.
Qed.
